(** * Tomocupy: the chunk conveyor of [GPURec] and the layout transforms of
    [FourierRec]

    A shallow embedding of [src/tomocupy/rec.py] (the conveyor loops
    [recon_all] and [recon_try]) and of [src/tomocupy/fourierrec.py]
    (the two array reorganisations around the backprojection kernel),
    together with the properties the specification states about them and
    further properties read off the code. *)

From Stdlib Require Import ZArith Lia.
From stdpp Require Import base option list.

Local Open Scope nat_scope.

(** ** Part I.  [fourierrec.py]: arrays and the layout transforms *)

Module FourierRec.

Section NdArray.
Context {A : Type}.

(** A C-contiguous array: a shape and the flat row-major buffer. *)
Record ndarray := NdArray { shape : list nat; buf : list A }.

Definition nelems (s : list nat) : nat := foldr Nat.mul 1 s.

Definition well_shaped (a : ndarray) : Prop := length (buf a) = nelems (shape a).

(** [a[:h]] and [a[h:]] for [0 <= h]: slices along axis 0 of a contiguous
    array are a prefix and a suffix of the buffer.  A 0-d array cannot be
    sliced. *)
Definition slice0_to (h : nat) (a : ndarray) : option ndarray :=
  match shape a with
  | [] => None
  | d :: ds => Some (NdArray (Nat.min h d :: ds) (take (Nat.min h d * nelems ds) (buf a)))
  end.

Definition slice0_from (h : nat) (a : ndarray) : option ndarray :=
  match shape a with
  | [] => None
  | d :: ds => Some (NdArray ((d - Nat.min h d) :: ds) (drop (Nat.min h d * nelems ds) (buf a)))
  end.

(** [a[..., cp.newaxis]]: a trailing axis of extent 1, same buffer. *)
Definition newaxis_last (a : ndarray) : ndarray :=
  NdArray (shape a ++ [1]) (buf a).

(** The buffer cut into [n] consecutive pieces of [w] elements. *)
Fixpoint chunks (w n : nat) (l : list A) : list (list A) :=
  match n with
  | 0 => []
  | S n' => take w l :: chunks w n' (drop w l)
  end.

(** The leading axes and the last axis of a shape. *)
Definition split_last (s : list nat) : option (list nat * nat) :=
  match reverse s with
  | [] => None
  | d :: r => Some (reverse r, d)
  end.

(** [cp.concatenate((a, b), axis=-1)]: all axes but the last must agree;
    each row of the result is the row of [a] followed by the row of [b]. *)
Definition concatenate_last (a b : ndarray) : option ndarray :=
  '(sa, la) ← split_last (shape a);
  '(sb, lb) ← split_last (shape b);
  if decide (sa = sb)
  then Some (NdArray (sa ++ [la + lb])
               (concat (zip_with app (chunks la (nelems sa) (buf a))
                                     (chunks lb (nelems sa) (buf b)))))
  else None.

(** [cp.concatenate((a, b))]: along axis 0, the buffers are appended. *)
Definition concatenate0 (a b : ndarray) : option ndarray :=
  match shape a, shape b with
  | da :: sa, db :: sb =>
      if decide (sa = sb) then Some (NdArray ((da + db) :: sa) (buf a ++ buf b)) else None
  | _, _ => None
  end.

(** [a.reshape(s)] of a contiguous array: the extents must multiply to the
    number of elements; the buffer is shared (a view). *)
Definition reshape (s : list nat) (a : ndarray) : option ndarray :=
  if decide (nelems s = length (buf a)) then Some (NdArray s (buf a)) else None.

(** [l[::2]] on a list. *)
Fixpoint every2 (l : list A) : list A :=
  match l with
  | [] => []
  | x :: l' => x :: match l' with [] => [] | _ :: l'' => every2 l'' end
  end.

(** [a[..., off::2]] for [off] 0 or 1: striding along the last axis. *)
Definition stride2_last (off : nat) (a : ndarray) : option ndarray :=
  '(s, l) ← split_last (shape a);
  Some (NdArray (s ++ [(l + 1 - off) / 2])
          (concat (map (λ row, every2 (drop off row)) (chunks l (nelems s) (buf a))))).

(** [obj[:] = v].  Equal shapes copy [v] into [obj]; unequal shapes (which
    numpy would try to broadcast) are treated as an error. *)
Definition assign_all (obj v : ndarray) : option ndarray :=
  if decide (shape obj = shape v) then Some (NdArray (shape obj) (buf v)) else None.

(** *** The two transforms of [FourierRec.backprojection] *)

(** Lines 71-72: the two half-height bands of [data] are glued along a new
    last axis and the result is read back under the shape of [data].  The
    index expressions [[:nz//2, :, :, newaxis]] are those of a 3-d array,
    which is what [backprojection] is given; other ranks are left out. *)
Definition interleave_input (nz : nat) (data : ndarray) : option ndarray :=
  match shape data with
  | [_; _; _] =>
      lo ← slice0_to (nz / 2) data;
      hi ← slice0_from (nz / 2) data;
      c ← concatenate_last (newaxis_last lo) (newaxis_last hi);
      reshape (shape data) c
  | _ => None
  end.

(** Lines 74 and 76: [obj] viewed as [(nz//2, n, 2n)], its even columns
    followed (along axis 0) by its odd columns, stored back into [obj]. *)
Definition deinterleave_output (nz n : nat) (obj : ndarray) : option ndarray :=
  objc ← reshape [nz / 2; n; 2 * n] obj;
  ev ← stride2_last 0 objc;
  od ← stride2_last 1 objc;
  v ← concatenate0 ev od;
  assign_all obj v.

(** [backprojection(obj, data, stream)].  The kernel [fslv] is external: it
    receives the two device pointers and overwrites the memory of [obj];
    [objc] is a view of that same memory, so line 76 reads what the kernel
    wrote. *)
Definition backprojection (fslv : list A → list A → list A)
    (nz n : nat) (obj data : ndarray) : option ndarray :=
  data' ← interleave_input nz data;
  _ ← reshape [nz / 2; n; 2 * n] obj;
  deinterleave_output nz n (NdArray (shape obj) (fslv (buf obj) (buf data'))).

End NdArray.

Arguments ndarray : clear implicits.

(** A worked volume: two rows of two by two elements. *)
Definition volume8 : ndarray Z := NdArray [2; 2; 2] [1; 2; 3; 4; 5; 6; 7; 8]%Z.

(** Worked sinograms: two rows of three projections of two columns, and
    three rows of one by one. *)
Definition sino12 : ndarray Z :=
  NdArray [2; 3; 2] [1; 2; 3; 4; 5; 6; 7; 8; 9; 10; 11; 12]%Z.
Definition sino3 : ndarray Z := NdArray [3; 1; 1] [1; 2; 3]%Z.

(** A stand-in for the kernel in worked examples: it overwrites the memory
    of [obj] with the leading elements of what it is given. *)
Definition kernel_copy (o d : list Z) : list Z := take (length o) (d ++ o).

End FourierRec.

(** ** Part II.  [rec.py]: the chunk conveyor

    The model follows the scheduler thread, the one that runs [recon_all]
    and [recon_try].  The other threads are its environment: the reader
    thread shows as the list of items that [data_queue] will deliver, the
    write jobs as a schedule of completions.  What the scheduler does is
    logged as a trace of events; the effects on the buffers are applied as
    the operations are issued, which agrees with the streams because the
    three stages of a turn work on different buffers and every turn ends by
    synchronising all three streams. *)

Module GPURec.

(** *** Python indexing *)

(** [l[i]] for a Python integer [i]: negative indices count from the end,
    anything outside [-len, len) raises [IndexError] (here [None]). *)
Definition py_index {A} (l : list A) (i : Z) : option A :=
  let n := Z.of_nat (length l) in
  if (0 <=? i)%Z then l !! Z.to_nat i
  else if (- n <=? i)%Z then l !! Z.to_nat (n + i)
  else None.

(** Number of elements selected by [a[:stop]] on an axis of extent [len]. *)
Definition py_slice_stop (len : nat) (stop : Z) : nat :=
  if (stop <? 0)%Z then Z.to_nat (Z.max 0 (Z.of_nat len + stop))
  else Nat.min (Z.to_nat stop) len.

(** [l[a:b]] for Python integers [a], [b] (step 1). *)
Definition py_slice {A} (l : list A) (a b : Z) : list A :=
  let lo := py_slice_stop (length l) a in
  let hi := py_slice_stop (length l) b in
  take (hi - lo) (drop lo l).

(** *** Data *)

(** One z-row of a chunk buffer: the values of all projections and columns
    at that row.  The conveyor only ever cuts buffers along the row axis. *)
Definition row : Type := list Z.

(** The three CUDA streams of [__init__]: [stream1] carries the host to
    device copies, [stream2] the reconstruction, [stream3] the device to
    host copies. *)
Inductive stream := Stream1 | Stream2 | Stream3.

Inductive array_name := Data | Dark | Flat.

(** An element of [data_queue]. *)
Record item := Item {
  item_id : Z;
  item_data : list row;
  item_dark : list row;
  item_flat : list row }.

(** [params] and [args], as far as the conveyor reads them. *)
Record config := Config {
  nzchunk : nat;
  lzchunk : list Z;
  ncz : nat;
  nproj : nat;
  ndark : nat;
  nflat : nat;
  ni : nat;
  start_row : Z;
  binning : nat;
  max_write_threads : nat;
  id_slices : list Z;
  nschunk : nat;
  lschunk : list Z;
  shift_array : list Z;
  save_centers : list Z }.

(** What a reconstruction buffer holds.  The processing chain and the
    backprojection kernel are external; their result is kept symbolically,
    as the operands they were given. *)
Inductive recon :=
| RecZeros
| RecOf (data dark flat : list row) (st en : Z)
| RecTry (slice : item) (sht : list Z).

(** The jobs handed to the write threads. *)
Inductive job :=
| write_data_chunk (rec : recon) (st en id start : Z)
| write_data_try (rec : recon) (kk : nat) (center id_slice : Z).

(** What the scheduler thread does, in program order.  The events of a
    stage carry [chunk], the position in arrival order that the stage
    addresses (the [k], [k-1] or [k-2] of its index expressions), next to
    the buffer generation it uses. *)
Inductive event :=
| EvProgress (k : nat)
| EvCompute (chunk gen : nat) (out : recon)
| EvFindFree (ithread : nat)
| EvCopyOut (chunk gen ithread : nat)
| EvQueueGet (chunk : nat) (id : Z)
| EvPinnedWrite (a : array_name) (chunk gen rows : nat)
| EvCopyIn (a : array_name) (chunk gen rows : nat)
| EvSync (s : stream)
| EvRun (ithread : nat) (j : job)
| EvJoin (t : nat)
| EvReadTry (id_slice : Z).

(** The chunk buffers of the three arrays: generation, then row. *)
Record bufs := Bufs {
  b_data : list (list row);
  b_dark : list (list row);
  b_flat : list (list row) }.

Definition get_buf (a : array_name) (b : bufs) : list (list row) :=
  match a with Data => b_data b | Dark => b_dark b | Flat => b_flat b end.

Definition set_buf (a : array_name) (v : list (list row)) (b : bufs) : bufs :=
  match a with
  | Data => Bufs v (b_dark b) (b_flat b)
  | Dark => Bufs (b_data b) v (b_flat b)
  | Flat => Bufs (b_data b) (b_dark b) v
  end.

Record memory := Memory {
  item_pinned : bufs;
  item_gpu : bufs;
  rec_pinned : list recon;
  rec_gpu : list recon }.

(** Modelled from the spec: [utils.WRThread] is not part of the sources at
    hand.  Section 3 describes a worker slot as one thread plus an idle/busy
    flag and the job it is running if busy. *)
Abbreviation WRThread := (option job).

(** Modelled from the spec: completion of write jobs is the environment's
    move.  A tick lists the slots whose job has finished since the pool was
    last looked at, and names the slot that finishes first should the
    scheduler have to wait on a saturated pool. *)
Record tick := Tick { finished : list nat; first_done : nat }.

Record state := State {
  data_queue : list item;
  ticks : list tick;
  write_threads : list WRThread;
  mem : memory;
  ids : list Z;
  ithread : option nat;
  trace : list event }.

(** *** The monad of the scheduler thread *)

Inductive exn := IndexError | ValueError | UnboundLocalError | SlotBusy.

Inductive outcome (A : Type) :=
| Done (a : A) (s : state)
| Raised (e : exn) (s : state)
| Blocked (s : state).
Arguments Done {A} a s.
Arguments Raised {A} e s.
Arguments Blocked {A} s.

Definition M (A : Type) : Type := state → outcome A.

#[global] Instance M_ret : MRet M := λ A a s, Done a s.
#[global] Instance M_bind : MBind M := λ A B f m s,
  match m s with
  | Done a s' => f a s'
  | Raised e s' => Raised e s'
  | Blocked s' => Blocked s'
  end.

Definition raise {A} (e : exn) : M A := λ s, Raised e s.
Definition block {A} : M A := λ s, Blocked s.
Definition gets {A} (f : state → A) : M A := λ s, Done (f s) s.
Definition modify (f : state → state) : M unit := λ s, Done tt (f s).

(** A lookup that raises [e] when it fails. *)
Definition orelse {A} (e : exn) (o : option A) : M A :=
  match o with Some a => mret a | None => raise e end.

Definition set_data_queue (q : list item) (s : state) : state :=
  State q (ticks s) (write_threads s) (mem s) (ids s) (ithread s) (trace s).
Definition set_ticks (t : list tick) (s : state) : state :=
  State (data_queue s) t (write_threads s) (mem s) (ids s) (ithread s) (trace s).
Definition set_write_threads (w : list WRThread) (s : state) : state :=
  State (data_queue s) (ticks s) w (mem s) (ids s) (ithread s) (trace s).
Definition set_mem (m : memory) (s : state) : state :=
  State (data_queue s) (ticks s) (write_threads s) m (ids s) (ithread s) (trace s).
Definition set_ids (l : list Z) (s : state) : state :=
  State (data_queue s) (ticks s) (write_threads s) (mem s) l (ithread s) (trace s).
Definition set_ithread (i : option nat) (s : state) : state :=
  State (data_queue s) (ticks s) (write_threads s) (mem s) (ids s) i (trace s).
Definition set_trace (t : list event) (s : state) : state :=
  State (data_queue s) (ticks s) (write_threads s) (mem s) (ids s) (ithread s) t.

Definition set_item_pinned (b : bufs) (m : memory) : memory :=
  Memory b (item_gpu m) (rec_pinned m) (rec_gpu m).
Definition set_item_gpu (b : bufs) (m : memory) : memory :=
  Memory (item_pinned m) b (rec_pinned m) (rec_gpu m).
Definition set_rec_pinned (r : list recon) (m : memory) : memory :=
  Memory (item_pinned m) (item_gpu m) r (rec_gpu m).
Definition set_rec_gpu (r : list recon) (m : memory) : memory :=
  Memory (item_pinned m) (item_gpu m) (rec_pinned m) r.

Definition emit (e : event) : M unit :=
  modify (λ s, set_trace (trace s ++ [e]) s).

(** [for x in l: body(x)]. *)
Fixpoint for_each {A} (l : list A) (body : A → M unit) : M unit :=
  match l with
  | [] => mret tt
  | x :: l' => body x ;; for_each l' body
  end.

(** *** The write pool *)

(** Modelled from the spec: the jobs of the listed slots have finished. *)
Definition complete (done : list nat) (w : list WRThread) : list WRThread :=
  foldr (λ i w', <[i:=None]> w') w done.

Fixpoint first_idle (w : list WRThread) : option nat :=
  match w with
  | [] => None
  | None :: _ => Some 0
  | Some _ :: w' => S <$> first_idle w'
  end.

Definition next_tick : M tick := λ s,
  match ticks s with
  | [] => Done (Tick [] 0) s
  | t :: ts => Done t (set_ticks ts s)
  end.

(** Modelled from the spec: [utils.find_free_thread] is not part of the
    sources at hand.  Section 4.1 gives its policy: scan for the first idle
    slot; if none is idle, wait until one becomes idle.  An empty pool never
    has an idle slot. *)
Definition find_free_thread : M nat :=
  tk ← next_tick;
  w ← gets write_threads;
  let w1 := complete (finished tk) w in
  i ← match first_idle w1 with
      | Some i => modify (set_write_threads w1) ;; mret i
      | None =>
          match w1 with
          | [] => block
          | _ :: _ =>
              let i := first_done tk mod length w1 in
              modify (set_write_threads (<[i:=None]> w1)) ;; mret i
          end
      end;
  emit (EvFindFree i) ;;
  mret i.

(** Modelled from the spec: [WRThread.run] is not part of the sources at
    hand.  Section 4.2: dispatch assigns a job to the given idle slot and
    starts it asynchronously; on a busy slot it is undefined or erroneous,
    which the model reports as [SlotBusy]. *)
Definition WRThread_run (i : nat) (j : job) : M unit :=
  tk ← next_tick;
  w ← gets write_threads;
  let w1 := complete (finished tk) w in
  modify (set_write_threads w1) ;;
  t ← orelse IndexError (w1 !! i);
  match t with
  | Some _ => raise SlotBusy
  | None => modify (set_write_threads (<[i:=Some j]> w1)) ;; emit (EvRun i j)
  end.

(** Modelled from the spec: [WRThread.join] is not part of the sources at
    hand.  Section 4.2: joining blocks until the slot's current job, if any,
    has finished. *)
Definition WRThread_join (t : nat) : M unit :=
  modify (λ s, set_write_threads (<[t:=None]> (write_threads s)) s) ;;
  emit (EvJoin t).

(** [for t in self.write_threads: t.join()]. *)
Definition join_all : M unit :=
  w ← gets write_threads;
  for_each (seq 0 (length w)) WRThread_join.

(** [self.data_queue.get()]: blocks while the queue is empty.  The state
    holds what the reader delivers over the whole run, in arrival order, so
    an exhausted list means the scheduler waits for ever. *)
Definition data_queue_get : M item := λ s,
  match data_queue s with
  | [] => Blocked s
  | it :: q => Done it (set_data_queue q s)
  end.

(** [dst[:stop] = src] along the row axis: the rows of [src] replace the
    selected rows one for one; a single row is broadcast; any other row
    count is a [ValueError] (here [None]). *)
Definition assign_rows (dst : list row) (stop : Z) (src : list row) : option (list row) :=
  let n := py_slice_stop (length dst) stop in
  if length src =? n then Some (src ++ drop n dst)
  else match src with
       | [r] => Some (replicate n r ++ drop n dst)
       | _ => None
       end.

Section Conveyor.
Variable cfg : config.

(** [args.start_row//2**args.binning]. *)
Definition row_offset : Z := (start_row cfg / 2 ^ Z.of_nat (binning cfg))%Z.

Definition filled (gens rows width : nat) (v : Z) : list (list row) :=
  replicate gens (replicate rows (replicate width v)).

(** Lines 127-142: [np.zeros]/[np.ones] and [cp.zeros]/[cp.ones] of shape
    [(2, count, ncz, ni)]. *)
Definition fresh_bufs : bufs :=
  Bufs (filled 2 (ncz cfg) (nproj cfg * ni cfg) 0%Z)
       (filled 2 (ncz cfg) (ndark cfg * ni cfg) 0%Z)
       (filled 2 (ncz cfg) (nflat cfg * ni cfg) 1%Z).

(** Lines 145-148. *)
Definition fresh_rec (m : memory) : memory :=
  Memory (item_pinned m) (item_gpu m)
         (replicate (max_write_threads cfg) RecZeros) (replicate 2 RecZeros).

(** Lines 127-152 of [recon_all]. *)
Definition allocate : M unit :=
  modify (λ s, set_mem (fresh_rec (Memory fresh_bufs fresh_bufs [] [])) s) ;;
  modify (set_ids []) ;;
  modify (set_ithread None).

(** Lines 158-172: the reconstruction of the chunk ingested one iteration
    earlier, on [stream2]. *)
Definition stage_compute (k : nat) : M unit :=
  if (0 <? k) && (k <? nzchunk cfg + 1) then
    g ← gets (item_gpu ∘ mem);
    data ← orelse IndexError (b_data g !! ((k - 1) mod 2));
    dark ← orelse IndexError (b_dark g !! ((k - 1) mod 2));
    flat ← orelse IndexError (b_flat g !! ((k - 1) mod 2));
    rg ← gets (rec_gpu ∘ mem);
    _ ← orelse IndexError (rg !! ((k - 1) mod 2));
    l ← gets ids;
    id ← orelse IndexError (l !! (k - 1));
    let st := (id * Z.of_nat (ncz cfg) + row_offset)%Z in
    lz ← orelse IndexError (py_index (lzchunk cfg) id);
    let en := (st + lz)%Z in
    let out := RecOf data dark flat st en in
    modify (λ s, set_mem (set_rec_gpu (<[(k - 1) mod 2 := out]> rg) (mem s)) s) ;;
    emit (EvCompute (k - 1) ((k - 1) mod 2) out)
  else mret tt.

(** Lines 174-178: the device to host copy of the chunk ingested two
    iterations earlier, on [stream3], into the landing area of a free
    write thread. *)
Definition stage_copy_out (k : nat) : M unit :=
  if 1 <? k then
    i ← find_free_thread;
    modify (set_ithread (Some i)) ;;
    m ← gets mem;
    r ← orelse IndexError (rec_gpu m !! ((k - 2) mod 2));
    _ ← orelse IndexError (rec_pinned m !! i);
    modify (λ s, set_mem (set_rec_pinned (<[i := r]> (rec_pinned m)) (mem s)) s) ;;
    emit (EvCopyOut (k - 2) ((k - 2) mod 2) i)
  else mret tt.

(** Lines 183-185, one array: [item_pinned[a][k % 2, :, :lzchunk[ids[k]]] = src]. *)
Definition pinned_write (a : array_name) (k : nat) (src : list row) : M unit :=
  l ← gets ids;
  id ← orelse IndexError (l !! k);
  lz ← orelse IndexError (py_index (lzchunk cfg) id);
  p ← gets (item_pinned ∘ mem);
  dst ← orelse IndexError (get_buf a p !! (k mod 2));
  new ← orelse ValueError (assign_rows dst lz src);
  modify (λ s, set_mem (set_item_pinned
                          (set_buf a (<[k mod 2 := new]> (get_buf a p)) p) (mem s)) s) ;;
  emit (EvPinnedWrite a k (k mod 2) (py_slice_stop (length dst) lz)).

(** Lines 188-190, one array: [item_gpu[a][k % 2].set(item_pinned[a][k % 2])]. *)
Definition copy_in (a : array_name) (k : nat) : M unit :=
  m ← gets mem;
  dst ← orelse IndexError (get_buf a (item_gpu m) !! (k mod 2));
  src ← orelse IndexError (get_buf a (item_pinned m) !! (k mod 2));
  if length dst =? length src then
    modify (λ s, set_mem (set_item_gpu
                            (set_buf a (<[k mod 2 := src]> (get_buf a (item_gpu m)))
                               (item_gpu m)) (mem s)) s) ;;
    emit (EvCopyIn a k (k mod 2) (length src))
  else raise ValueError.

(** Lines 179-190: the next item of the queue goes to pinned memory and
    from there, on [stream1], to the device. *)
Definition stage_ingest (k : nat) : M unit :=
  if k <? nzchunk cfg then
    it ← data_queue_get;
    emit (EvQueueGet k (item_id it)) ;;
    modify (λ s, set_ids (ids s ++ [item_id it]) s) ;;
    pinned_write Data k (item_data it) ;;
    pinned_write Dark k (item_dark it) ;;
    pinned_write Flat k (item_flat it) ;;
    copy_in Data k ;;
    copy_in Dark k ;;
    copy_in Flat k
  else mret tt.

(** Lines 192-197: the write job for the chunk copied out above. *)
Definition stage_dispatch (k : nat) : M unit :=
  if 1 <? k then
    l ← gets ids;
    id ← orelse IndexError (l !! (k - 2));
    let st := (id * Z.of_nat (ncz cfg) + row_offset)%Z in
    lz ← orelse IndexError (py_index (lzchunk cfg) id);
    let en := (st + lz)%Z in
    i ← gets ithread ≫= orelse UnboundLocalError;
    rp ← gets (rec_pinned ∘ mem);
    r ← orelse IndexError (rp !! i);
    WRThread_run i (write_data_chunk r st en id (start_row cfg))
  else mret tt.

(** Lines 156-200: one turn of the conveyor. *)
Definition conveyor_body (k : nat) : M unit :=
  emit (EvProgress k) ;;
  stage_compute k ;;
  stage_copy_out k ;;
  stage_ingest k ;;
  emit (EvSync Stream3) ;;
  stage_dispatch k ;;
  emit (EvSync Stream1) ;;
  emit (EvSync Stream2).

(** The first [j] turns of the loop of line 155. *)
Definition conveyor (j : nat) : M unit := for_each (seq 0 j) conveyor_body.

(** [GPURec.recon_all]. *)
Definition recon_all : M unit :=
  allocate ;;
  conveyor (nzchunk cfg + 2) ;;
  join_all.

(** *** [recon_try] *)

(** Lines 240-248. *)
Definition try_compute (slice : item) (k : nat) : M unit :=
  if (0 <? k) && (k <? nschunk cfg + 1) then
    ls ← orelse IndexError (lschunk cfg !! (k - 1));
    let a := Z.of_nat ((k - 1) * ncz cfg) in
    let sl := py_slice (shift_array cfg) a (a + ls)%Z in
    if (Z.of_nat (ncz cfg) - ls <? 0)%Z then raise ValueError
    else
      let sht := sl ++ replicate (Z.to_nat (Z.of_nat (ncz cfg) - ls)) 0%Z in
      rg ← gets (rec_gpu ∘ mem);
      _ ← orelse IndexError (rg !! ((k - 1) mod 2));
      let out := RecTry slice sht in
      modify (λ s, set_mem (set_rec_gpu (<[(k - 1) mod 2 := out]> rg) (mem s)) s) ;;
      emit (EvCompute (k - 1) ((k - 1) mod 2) out)
  else mret tt.

(** Lines 258-259, one turn of the inner loop. *)
Definition try_dispatch_one (k : nat) (id_slice : Z) (kk : nat) : M unit :=
  i ← gets ithread ≫= orelse UnboundLocalError;
  rp ← gets (rec_pinned ∘ mem);
  r ← orelse IndexError (rp !! i);
  if kk <? ncz cfg then
    c ← orelse IndexError (py_index (save_centers cfg) (Z.of_nat ((k - 2) * ncz cfg + kk)));
    WRThread_run i (write_data_try r kk c id_slice)
  else raise IndexError.

(** Lines 255-259. *)
Definition try_dispatch (k : nat) (id_slice : Z) : M unit :=
  if 1 <? k then
    ls ← orelse IndexError (lschunk cfg !! (k - 2));
    for_each (seq 0 (Z.to_nat ls)) (try_dispatch_one k id_slice)
  else mret tt.

(** Lines 238-262. *)
Definition try_body (slice : item) (id_slice : Z) (k : nat) : M unit :=
  emit (EvProgress k) ;;
  try_compute slice k ;;
  stage_copy_out k ;;
  emit (EvSync Stream3) ;;
  try_dispatch k id_slice ;;
  emit (EvSync Stream1) ;;
  emit (EvSync Stream2).

(** Lines 208-265, one slice.  [read_data_try] makes the reader put the
    slice on the queue. *)
Definition try_slice (id_slice : Z) : M unit :=
  emit (EvReadTry id_slice) ;;
  slice ← data_queue_get;
  modify (λ s, set_mem (fresh_rec (mem s)) s) ;;
  for_each (seq 0 (nschunk cfg + 2)) (try_body slice id_slice) ;;
  join_all.

(** [GPURec.recon_try]. *)
Definition recon_try : M unit := for_each (id_slices cfg) try_slice.

(** The scheduler as [__init__] leaves it: every write thread idle, no
    buffer allocated yet.  [q] is what the reader will deliver and [tks]
    the completion schedule of the write jobs. *)
Definition init_state (q : list item) (tks : list tick) : state :=
  State q tks (replicate (max_write_threads cfg) None)
        (Memory (Bufs [] [] []) (Bufs [] [] []) [] []) [] None [].

End Conveyor.

(** *** Vocabulary of the properties *)

#[global] Instance item_inhabited : Inhabited item := populate (Item 0 [] [] []).

Section Properties.
Variable cfg : config.

Definition item_rows (a : array_name) (it : item) : list row :=
  match a with Data => item_data it | Dark => item_dark it | Flat => item_flat it end.

(** A queue item fits the buffers: its id addresses [lzchunk] and each of
    its arrays brings exactly the rows that [[:lzchunk[id]]] selects. *)
Definition item_ok (it : item) : bool :=
  match py_index (lzchunk cfg) (item_id it) with
  | Some lz =>
      let n := py_slice_stop (ncz cfg) lz in
      (length (item_data it) =? n) && (length (item_dark it) =? n)
      && (length (item_flat it) =? n)
  | None => false
  end.

(** What a run of [recon_all] needs from its environment: the reader
    delivers at least [nzchunk] fitting items, and there is a write thread. *)
Definition input_ok (q : list item) : bool :=
  (nzchunk cfg <=? length q)
  && forallb item_ok (take (nzchunk cfg) q)
  && (0 <? max_write_threads cfg).

(** First output row of the chunk with the given id (lines 164 and 194). *)
Definition chunk_st (id : Z) : Z := (id * Z.of_nat (ncz cfg) + row_offset cfg)%Z.

Definition arr_width (a : array_name) : nat :=
  match a with
  | Data => nproj cfg * ni cfg
  | Dark => ndark cfg * ni cfg
  | Flat => nflat cfg * ni cfg
  end.

Definition fill_value (a : array_name) : Z :=
  match a with Flat => 1%Z | _ => 0%Z end.

(** One generation of an array as allocated: zeros for data and dark, ones
    for flat. *)
Definition fresh_rows (a : array_name) : list row :=
  replicate (ncz cfg) (replicate (arr_width a) (fill_value a)).

Definition fresh_gen (m : memory) (g : nat) : Prop :=
  ∀ a, get_buf a (item_pinned m) !! g = Some (fresh_rows a)
       ∧ get_buf a (item_gpu m) !! g = Some (fresh_rows a).

Variable q0 : list item.

(** The [k]-th item the reader delivers. *)
Definition chunk (k : nat) : item := q0 !!! k.

(** [lzchunk[id]] for the [k]-th item. *)
Definition chunk_lz (k : nat) : Z :=
  default 0%Z (py_index (lzchunk cfg) (item_id (chunk k))).

(** The two generations of array [a] after the first [c] items have been
    ingested: item [k] overwrites the leading rows of generation [k mod 2]
    and leaves the other rows of that buffer as they were. *)
Fixpoint bufs_after (a : array_name) (c : nat) : list (list row) :=
  match c with
  | 0 => replicate 2 (fresh_rows a)
  | S k =>
      let rows := item_rows a (chunk k) in
      <[k mod 2 := rows ++ drop (length rows) (bufs_after a k !!! (k mod 2))]>
        (bufs_after a k)
  end.

(** The buffer of array [a] that holds chunk [k]. *)
Definition chunk_buf (a : array_name) (k : nat) : list row :=
  bufs_after a (S k) !!! (k mod 2).

(** The reconstruction of chunk [k] (lines 160-172). *)
Definition chunk_rec (k : nat) : recon :=
  RecOf (chunk_buf Data k) (chunk_buf Dark k) (chunk_buf Flat k)
    (chunk_st (item_id (chunk k))) (chunk_st (item_id (chunk k)) + chunk_lz k).

(** The write job of chunk [k] (lines 194-197). *)
Definition chunk_job (k : nat) : job :=
  write_data_chunk (chunk_rec k)
    (chunk_st (item_id (chunk k))) (chunk_st (item_id (chunk k)) + chunk_lz k)
    (item_id (chunk k)) (start_row cfg).

Definition ingest_events (k : nat) : list event :=
  EvQueueGet k (item_id (chunk k))
  :: ((λ a, EvPinnedWrite a k (k mod 2) (length (item_rows a (chunk k))))
        <$> [Data; Dark; Flat])
  ++ ((λ a, EvCopyIn a k (k mod 2) (ncz cfg)) <$> [Data; Dark; Flat]).

(** The events of turn [k] of the conveyor when the reader delivers [q0]
    and [i] is the write thread found free in that turn. *)
Definition iteration_events (k i : nat) : list event :=
  EvProgress k
  :: (if (0 <? k) && (k <? nzchunk cfg + 1)
      then [EvCompute (k - 1) ((k - 1) mod 2) (chunk_rec (k - 1))] else [])
  ++ (if 1 <? k then [EvFindFree i; EvCopyOut (k - 2) ((k - 2) mod 2) i] else [])
  ++ (if k <? nzchunk cfg then ingest_events k else [])
  ++ [EvSync Stream3]
  ++ (if 1 <? k then [EvRun i (chunk_job (k - 2))] else [])
  ++ [EvSync Stream1; EvSync Stream2].

Definition iteration_shape (k : nat) (seg : list event) : Prop :=
  ∃ i, seg = iteration_events k i ∧ (2 ≤ k → i < max_write_threads cfg).

(** The state of the scheduler after [j] turns of the loop. *)
Record inv (j : nat) (s : state) : Prop := Inv {
  inv_data_queue : data_queue s = drop (Nat.min j (nzchunk cfg)) q0;
  inv_ids : ids s = item_id <$> take (Nat.min j (nzchunk cfg)) q0;
  inv_threads : length (write_threads s) = max_write_threads cfg;
  inv_rp : length (rec_pinned (mem s)) = max_write_threads cfg;
  inv_rg : length (rec_gpu (mem s)) = 2;
  inv_pinned : ∀ a, get_buf a (item_pinned (mem s)) = bufs_after a (Nat.min j (nzchunk cfg));
  inv_gpu : ∀ a, get_buf a (item_gpu (mem s)) = bufs_after a (Nat.min j (nzchunk cfg));
  inv_rec : 2 ≤ j ≤ nzchunk cfg + 1 →
    rec_gpu (mem s) !! ((j - 2) mod 2) = Some (chunk_rec (j - 2));
  inv_trace : ∃ segs, trace s = concat segs ∧ length segs = j
                      ∧ ∀ k seg, segs !! k = Some seg → iteration_shape k seg }.

End Properties.

(** Reading a trace. *)

Inductive stage := Ingest | Compute | Egest.

#[global] Instance stage_eq_dec : EqDecision stage.
Proof. solve_decision. Defined.

(** The stage an event starts, and the chunk position it works on. *)
Definition firing (e : event) : option (stage * nat) :=
  match e with
  | EvQueueGet c _ => Some (Ingest, c)
  | EvCompute c _ _ => Some (Compute, c)
  | EvCopyOut c _ _ => Some (Egest, c)
  | _ => None
  end.

Definition firings (tr : list event) : list (stage * nat) := omap firing tr.

(** The chunk positions on which stage [st] fired, in order. *)
Definition fired (st : stage) (tr : list event) : list nat :=
  omap (λ e, '(st', c) ← firing e; if decide (st' = st) then Some c else None) tr.

(** Chunk position and buffer generation of the events that touch a chunk
    buffer. *)
Definition chunk_gen (e : event) : option (nat * nat) :=
  match e with
  | EvCompute c g _ | EvCopyOut c g _ | EvPinnedWrite _ c g _ | EvCopyIn _ c g _ => Some (c, g)
  | _ => None
  end.

Definition dispatched (e : event) : option job :=
  match e with EvRun _ j => Some j | _ => None end.

Definition progress (e : event) : option nat :=
  match e with EvProgress k => Some k | _ => None end.

Definition is_sync (e : event) : bool :=
  match e with EvSync _ => true | _ => false end.

Definition is_run (e : event) : bool :=
  match e with EvRun _ _ => true | _ => false end.

(** The device to host copies, as (generation, landing area), that a trace
    has issued on [stream3] and not yet synchronised. *)
Definition copies_in_flight (tr : list event) : list (nat * nat) :=
  foldl (λ acc e,
           match e with
           | EvCopyOut _ g i => acc ++ [(g, i)]
           | EvSync Stream3 => []
           | _ => acc
           end) [] tr.

(** The turns of the loop in a trace: a turn starts at each progress
    report. *)
Definition turns (tr : list event) : list (list event) :=
  (foldr (λ e '(cur, rest),
            match e with
            | EvProgress _ => ([], (e :: cur) :: rest)
            | _ => (e :: cur, rest)
            end) ([], []) tr).2.

#[global] Instance stream_eq_dec : EqDecision stream.
Proof. solve_decision. Defined.
#[global] Instance array_name_eq_dec : EqDecision array_name.
Proof. solve_decision. Defined.
#[global] Instance item_eq_dec : EqDecision item.
Proof. solve_decision. Defined.
#[global] Instance recon_eq_dec : EqDecision recon.
Proof. solve_decision. Defined.
#[global] Instance job_eq_dec : EqDecision job.
Proof. solve_decision. Defined.
#[global] Instance event_eq_dec : EqDecision event.
Proof. solve_decision. Defined.

(** *** Buffers in flight *)

(** The chunk buffers that the operations of the conveyor read and write:
    one generation of [item_pinned[a]] or of [item_gpu[a]], one generation
    of [rec_gpu], the landing area [rec_pinned[i]] of a write thread. *)
Inductive region :=
| PinnedItem (a : array_name) (g : nat)
| GpuItem (a : array_name) (g : nat)
| GpuRec (g : nat)
| PinnedRec (i : nat).

#[global] Instance region_eq_dec : EqDecision region.
Proof. solve_decision. Defined.

(** What an operation touches, and the stream that carries it ([None] for
    what the scheduler thread does itself). *)
Record access := Access {
  acc_stream : option stream;
  acc_reads : list region;
  acc_writes : list region }.

(** Lines 159-172: the reconstruction, under [with self.stream2], reads
    the three device buffers of its generation and writes [rec_gpu] of the
    same generation.  Line 178: the copy out, under [with self.stream3],
    reads [rec_gpu[g]] and writes [rec_pinned[ithread]].  Lines 183-185:
    the assignments to pinned memory are done by the scheduler thread.
    Lines 188-190: the copies in, under [with self.stream1], read the
    pinned buffer and write the device buffer of the generation.  Line
    196: the write job is handed [rec_pinned[ithread]], which must hold the
    reconstruction by then; what the job reads later is guarded by the
    pool, a landing area being written only after [find_free_thread] has
    returned its thread. *)
Definition footprint (e : event) : option access :=
  match e with
  | EvCompute _ g _ =>
      Some (Access (Some Stream2) [GpuItem Data g; GpuItem Dark g; GpuItem Flat g] [GpuRec g])
  | EvCopyOut _ g i => Some (Access (Some Stream3) [GpuRec g] [PinnedRec i])
  | EvPinnedWrite a _ g _ => Some (Access None [] [PinnedItem a g])
  | EvCopyIn a _ g _ => Some (Access (Some Stream1) [PinnedItem a g] [GpuItem a g])
  | EvRun i _ => Some (Access None [PinnedRec i] [])
  | _ => None
  end.

Definition overlap (l1 l2 : list region) : bool :=
  existsb (λ r, existsb (λ r', bool_decide (r = r')) l2) l1.

(** Operations queued on one stream run in the order they were queued. *)
Definition same_stream (x y : access) : bool :=
  match acc_stream x, acc_stream y with
  | Some s, Some s' => bool_decide (s = s')
  | _, _ => false
  end.

(** Two operations conflict when they are not ordered by a stream and one
    writes a buffer that the other reads or writes. *)
Definition conflict (x y : access) : bool :=
  negb (same_stream x y)
  && (overlap (acc_writes x) (acc_reads y ++ acc_writes y)
      || overlap (acc_writes y) (acc_reads x)).

(** The stream operations issued and not yet synchronised: an operation
    stays in flight until its stream is synchronised; what the scheduler
    thread does itself is over when the next statement starts. *)
Definition in_flight_step (fl : list access) (e : event) : list access :=
  match e with
  | EvSync s => filter (λ x, acc_stream x ≠ Some s) fl
  | _ =>
      match footprint e with
      | Some x => match acc_stream x with Some _ => fl ++ [x] | None => fl end
      | None => fl
      end
  end.

Definition ops_in_flight (tr : list event) : list access := foldl in_flight_step [] tr.

(** No operation of the trace is issued while an operation in flight
    conflicts with it. *)
Fixpoint race_free_from (fl : list access) (tr : list event) : bool :=
  match tr with
  | [] => true
  | e :: tr' =>
      match footprint e with
      | Some x => forallb (λ y, negb (conflict x y)) fl
      | None => true
      end
      && race_free_from (in_flight_step fl e) tr'
  end.

Definition race_free (tr : list event) : bool := race_free_from [] tr.

(** The output rows [st, en) and the id of a chunk write job. *)
Definition job_rows (j : job) : option (Z * Z * Z) :=
  match j with
  | write_data_chunk _ st en id _ => Some (id, st, en)
  | write_data_try _ _ _ _ => None
  end.

(** The configuration with another number of chunks. *)
Definition with_nzchunk (n : nat) (cfg : config) : config :=
  Config n (lzchunk cfg) (ncz cfg) (nproj cfg) (ndark cfg) (nflat cfg) (ni cfg)
         (start_row cfg) (binning cfg) (max_write_threads cfg) (id_slices cfg)
         (nschunk cfg) (lschunk cfg) (shift_array cfg) (save_centers cfg).

(** *** Worked inputs *)

(** An item whose rows all hold one value per array. *)
Definition chunk_item (id : Z) (rows : nat) (v : Z) : item :=
  Item id (replicate rows [v]) (replicate rows [v + 100]%Z) (replicate rows [v + 200]%Z).

(** Three chunks of capacity 4, the last one with a single valid row; two
    write threads. *)
Definition cfg3 : config :=
  Config 3 [4; 4; 1]%Z 4 1 1 1 1 0 0 2 [] 0 [] [] [].
Definition queue3 : list item :=
  [chunk_item 0 4 10; chunk_item 1 4 20; chunk_item 2 1 30].

(** Two chunks that the parallel reader delivers in the order 1, 0. *)
Definition cfg_swapped : config :=
  Config 2 [2; 2]%Z 2 1 1 1 1 0 0 1 [] 0 [] [] [].
Definition queue_swapped : list item :=
  [chunk_item 1 2 10; chunk_item 0 2 20].

(** No chunk at all. *)
Definition cfg_empty : config :=
  Config 0 [] 4 1 1 1 1 0 0 2 [] 0 [] [] [].

(** One slice tried against two centers in one chunk slot; two write
    threads. *)
Definition cfg_try : config :=
  Config 0 [] 2 1 1 1 1 0 0 2 [7]%Z 1 [2]%Z [5; 6]%Z [50; 51]%Z.
Definition queue_try : list item := [chunk_item 7 1 10].

(** Deliveries of the reader that do not fit the three-chunk
    configuration: the last item missing, an id outside [lzchunk], a second
    item one row short. *)
Definition queue_short : list item := [chunk_item 0 4 10; chunk_item 1 4 20].
Definition queue_bad_id : list item :=
  [chunk_item 0 4 10; chunk_item 5 4 20; chunk_item 2 1 30].
Definition queue_bad_rows : list item :=
  [chunk_item 0 4 10; chunk_item 1 3 20; chunk_item 2 1 30].

(** Every write job in the list comes right after a synchronisation of
    [stream3]. *)
Definition run_after_sync (l : list event) : Prop :=
  ∀ tr1 e tr2, l = tr1 ++ e :: tr2 → is_run e = true → ∃ tr0, tr1 = tr0 ++ [EvSync Stream3].

End GPURec.

(** ** Tactics *)

Import GPURec.

(** Evaluation of the monadic code, leaving arithmetic and list
    operations folded. *)
Ltac mred := cbn -[Nat.modulo Nat.div Nat.mul Z.mul Z.add Z.sub Z.pow Z.div Z.of_nat Z.to_nat
                    py_index py_slice_stop assign_rows complete first_idle
                    insert lookup length drop take replicate app].

Ltac run := unfold mbind, M_bind, mret, M_ret, gets, modify, emit, orelse, raise, block, compose; mred.

Ltac norm :=
  cbn [set_data_queue set_ticks set_write_threads set_mem set_ids set_ithread set_trace
       set_item_pinned set_item_gpu set_rec_pinned set_rec_gpu
       data_queue ticks write_threads mem ids ithread trace
       item_pinned item_gpu rec_pinned rec_gpu].

Ltac seg_cases :=
  repeat case_bool_decide; try (exfalso; lia); cbn.

(** Membership in the trace of an evaluated run. *)
Ltac in_trace :=
  apply list_elem_of_In; cbn; repeat (first [left; reflexivity | right]); fail.

(** ** Part III.  Properties of the layout transforms *)

Import FourierRec.

Section RoundTrip.
Context {A : Type}.
Implicit Types l a b : list A.

Lemma chunks_concat w n l : length l = n * w → concat (chunks w n l) = l.
Proof.
  revert l. induction n as [|n IH]; intros l Hl; simpl in *.
  - by destruct l.
  - rewrite IH, ?take_drop; [done|]. rewrite length_drop. lia.
Qed.

Lemma every2_app a b :
  every2 (a ++ b) = every2 a ++ every2 (if Nat.even (length a) then b else drop 1 b).
Proof.
  revert b. induction a as [a IH] using (induction_ltof1 _ (@length A)).
  unfold ltof in IH. intros b. destruct a as [|x [|y a]]; simpl.
  - done.
  - destruct b; simpl; [done|]. by rewrite drop_0.
  - f_equal. rewrite IH by (simpl; lia). done.
Qed.

Lemma zip_singletons n a b :
  length a = n → length b = n →
  every2 (concat (zip_with app (chunks 1 n a) (chunks 1 n b))) = a
  ∧ every2 (drop 1 (concat (zip_with app (chunks 1 n a) (chunks 1 n b)))) = b
  ∧ length (concat (zip_with app (chunks 1 n a) (chunks 1 n b))) = 2 * n.
Proof.
  revert a b. induction n as [|n IH]; intros [|x a] [|y b] Ha Hb; simplify_eq/=; [done|].
  rewrite !drop_0. destruct (IH a b) as (H1 & H2 & H3); [done..|].
  rewrite H1, H3. split_and!; [done| |lia].
  destruct (concat _) as [|z t] eqn:E; simpl in *.
  - destruct b; simpl in *; [done|lia].
  - rewrite drop_0 in H2. by rewrite H2.
Qed.

Lemma stride_rows off r w l :
  off ≤ 1 → length l = r * (2 * w) →
  concat (map (λ row, every2 (drop off row)) (chunks (2 * w) r l)) = every2 (drop off l).
Proof.
  intros Hoff. revert l. induction r as [|r IH]; intros l Hl.
  - destruct l; [|done]. by destruct off.
  - cbn [chunks map concat]. rewrite IH by (rewrite length_drop; lia).
    rewrite <-(take_drop (2 * w) l) at 3.
    destruct w as [|w].
    { assert (l = []) as -> by (destruct l; [done|simpl in *; lia]). by destruct off. }
    rewrite drop_app_le by (rewrite length_take; lia).
    rewrite every2_app, length_drop, length_take.
    replace (Nat.even _) with (Nat.even off); last first.
    { replace ((2 * S w) `min` length l - off) with (off + 2 * (S w - off)) by lia.
      rewrite Nat.even_add_mul_2. done. }
    destruct off as [|[|]]; [done| |lia]. simpl Nat.even. cbv iota.
    by rewrite drop_drop.
Qed.



Lemma half_double h : (h + h) / 2 = h.
Proof. symmetry. apply Nat.div_unique with 0; lia. Qed.

(** C3.  For every volume [data] of shape [(nz, n, n)] with [nz] even, the
    input transform of [backprojection] (the two half-height bands glued
    pairwise along a new last axis) succeeds, and the output transform (the
    volume viewed as rows of width [2n], even columns then odd columns
    along axis 0) applied to its result gives back [data], shape and
    buffer. *)
Theorem interleave_roundtrip (nz n : nat) (data : ndarray A) :
  Nat.Even nz → shape data = [nz; n; n] → well_shaped data →
  ∃ d', interleave_input nz data = Some d' ∧ deinterleave_output nz n d' = Some data.
Proof.
  intros [h Hh] Hs Hw. destruct data as [sh b]. unfold well_shaped in Hw.
  cbn [shape buf] in *. subst sh.
  assert (nz = h + h) as -> by lia. clear Hh.
  set (N := h * (n * n)).
  assert (length b = N + N) as Hb by (cbn in Hw; lia).
  destruct (zip_singletons N (take N b) (drop N b)) as (E1 & E2 & E3).
  { rewrite length_take. lia. }
  { rewrite length_drop. lia. }
  set (I := concat (zip_with app (chunks 1 N (take N b)) (chunks 1 N (drop N b)))) in *.
  assert (interleave_input (h + h) (NdArray [h + h; n; n] b) = Some (NdArray [h + h; n; n] I)) as HI.
  { unfold interleave_input, slice0_to, slice0_from. cbn [shape buf mbind option_bind].
    rewrite half_double. replace (h `min` (h + h)) with h by lia.
    replace (h + h - h) with h by lia.
    unfold concatenate_last, newaxis_last, split_last. cbn [shape buf app reverse rev_append mbind option_bind].
    rewrite decide_True by done. cbn [nelems foldr app].
    replace (h * (n * (n * 1))) with N by (unfold N; lia).
    fold I. unfold reshape. cbn [shape buf nelems foldr mbind option_bind].
    rewrite decide_True by lia. done. }
  eexists; split; [exact HI|].
  unfold deinterleave_output, reshape. cbn [shape buf nelems foldr mbind option_bind].
  rewrite half_double. rewrite decide_True by (unfold N in *; lia).
  cbn [mbind option_bind].
  unfold stride2_last, split_last. cbn [shape buf app reverse rev_append mbind option_bind nelems foldr].
  rewrite !(stride_rows _ (h * (n * 1)) n) by (unfold N in *; lia).
  rewrite drop_0, E1, E2.
  replace ((2 * n + 1 - 0) / 2) with n by (apply Nat.div_unique with 1; lia).
  replace ((2 * n + 1 - 1) / 2) with n by (apply Nat.div_unique with 0; lia).
  unfold concatenate0. cbn [shape buf]. rewrite decide_True by done.
  cbn [mbind option_bind]. unfold assign_all. cbn [shape buf].
  rewrite decide_True by done. by rewrite take_drop.
Qed.
End RoundTrip.

(** ** Part IV.  Properties of the conveyor *)

Lemma bind_run {A B} (m : M A) (f : A → M B) s a s' :
  m s = Done a s' → (m ≫= f) s = f a s'.
Proof. intros H. unfold mbind, M_bind. by rewrite H. Qed.

(** One step of a sequence whose first action is known to return. *)
Ltac step tac := erewrite bind_run; [|tac].

Section ConveyorProofs.
Variable cfg : config.
Variable q0 : list item.

Lemma item_ok_rows it :
  item_ok cfg it = true →
  ∃ lz, py_index (lzchunk cfg) (item_id it) = Some lz
        ∧ ∀ a, length (item_rows a it) = py_slice_stop (ncz cfg) lz.
Proof.
  unfold item_ok. destruct (py_index _ _) as [lz|]; [|done].
  rewrite !andb_true_iff, !Nat.eqb_eq. intros [[? ?] ?].
  exists lz. split; [done|]. by intros [].
Qed.

Lemma py_slice_stop_le len stop : py_slice_stop len stop ≤ len.
Proof. unfold py_slice_stop. destruct (Z.ltb_spec stop 0); lia. Qed.

Lemma assign_rows_exact dst lz src :
  length src = py_slice_stop (length dst) lz →
  assign_rows dst lz src = Some (src ++ drop (length src) dst).
Proof.
  intros H. unfold assign_rows. rewrite <-H, Nat.eqb_refl. done.
Qed.

Lemma pinned_write_run a k src q tk w P G rp rg l ith tr id lz dst :
  l !! k = Some id →
  py_index (lzchunk cfg) id = Some lz →
  get_buf a P !! (k mod 2) = Some dst →
  length src = py_slice_stop (length dst) lz →
  pinned_write cfg a k src (State q tk w (Memory P G rp rg) l ith tr) =
    Done tt (State q tk w
               (Memory (set_buf a (<[k mod 2 := src ++ drop (length src) dst]> (get_buf a P)) P)
                  G rp rg)
               l ith (tr ++ [EvPinnedWrite a k (k mod 2) (length src)])).
Proof.
  intros Hid Hlz Hdst Hlen. unfold pinned_write. run.
  rewrite Hid. mred. rewrite Hlz. mred. rewrite Hdst. mred.
  rewrite assign_rows_exact by done. mred. rewrite Hlen. done.
Qed.

Lemma copy_in_run a k q tk w P G rp rg l ith tr dst src :
  get_buf a G !! (k mod 2) = Some dst →
  get_buf a P !! (k mod 2) = Some src →
  length dst = length src →
  copy_in a k (State q tk w (Memory P G rp rg) l ith tr) =
    Done tt (State q tk w
               (Memory P (set_buf a (<[k mod 2 := src]> (get_buf a G)) G) rp rg)
               l ith (tr ++ [EvCopyIn a k (k mod 2) (length src)])).
Proof.
  intros Hd Hs Hl. unfold copy_in. run. rewrite Hd. mred. rewrite Hs. mred.
  rewrite Hl, Nat.eqb_refl. done.
Qed.

(** The write pool *)

Lemma length_complete d (w : list WRThread) : length (complete d w) = length w.
Proof. induction d as [|i d IH]; simpl; [done|]. by rewrite length_insert. Qed.

Lemma complete_idle d (w : list WRThread) i :
  w !! i = Some None → complete d w !! i = Some None.
Proof.
  intros Hi. induction d as [|i' d IH]; simpl; [done|].
  destruct (decide (i' = i)) as [->|Hne].
  - rewrite list_lookup_insert_eq; [done|]. by apply lookup_lt_Some in IH.
  - by rewrite list_lookup_insert_ne.
Qed.

Lemma first_idle_Some (w : list WRThread) i : first_idle w = Some i → w !! i = Some None.
Proof.
  revert i. induction w as [|[j|] w IH]; intros i; simpl; [done| |by intros [= <-]].
  destruct (first_idle w) as [i'|]; [|done]. intros [= <-]. simpl. by apply IH.
Qed.

Lemma next_tick_run q tk w m l ith tr :
  ∃ t tk', next_tick (State q tk w m l ith tr) = Done t (State q tk' w m l ith tr).
Proof. destruct tk as [|t tk]; simpl; eauto. Qed.

Lemma find_free_thread_run q tk w m l ith tr :
  0 < length w →
  ∃ i tk' w',
    find_free_thread (State q tk w m l ith tr)
    = Done i (State q tk' w' m l ith (tr ++ [EvFindFree i]))
    ∧ length w' = length w ∧ w' !! i = Some None.
Proof.
  intros Hw. unfold find_free_thread.
  destruct (next_tick_run q tk w m l ith tr) as (t & tk' & Ht).
  run. rewrite Ht. mred.
  destruct (first_idle (complete (finished t) w)) as [i|] eqn:Hf; mred.
  - exists i, tk', (complete (finished t) w). split; [done|].
    split; [apply length_complete|by apply first_idle_Some].
  - pose proof (length_complete (finished t) w) as Hl.
    destruct (complete (finished t) w) as [|x w1] eqn:Hc; [simpl in Hl; lia|]. mred.
    exists (first_done t `mod` length (x :: w1)), tk',
      (<[first_done t `mod` length (x :: w1):=None]> (x :: w1)).
    split; [done|]. rewrite length_insert. split; [done|].
    apply list_lookup_insert_eq. apply Nat.mod_upper_bound. done.
Qed.

Lemma WRThread_run_run i j q tk w m l ith tr :
  w !! i = Some None →
  ∃ tk' w',
    WRThread_run i j (State q tk w m l ith tr)
    = Done tt (State q tk' w' m l ith (tr ++ [EvRun i j]))
    ∧ length w' = length w.
Proof.
  intros Hi. unfold WRThread_run.
  destruct (next_tick_run q tk w m l ith tr) as (t & tk' & Ht).
  run. rewrite Ht. mred. rewrite (complete_idle _ _ _ Hi). mred.
  exists tk', (<[i:=Some j]> (complete (finished t) w)).
  split; [done|]. by rewrite length_insert, length_complete.
Qed.

Lemma WRThread_join_run t q tk w m l ith tr :
  WRThread_join t (State q tk w m l ith tr)
  = Done tt (State q tk (<[t:=None]> w) m l ith (tr ++ [EvJoin t])).
Proof. done. Qed.

Lemma for_each_join n : ∀ k q tk w m l ith tr,
  for_each (seq k n) WRThread_join (State q tk w m l ith tr)
  = Done tt (State q tk (foldl (λ w' t, <[t:=None]> w') w (seq k n)) m l ith
               (tr ++ map EvJoin (seq k n))).
Proof.
  induction n as [|n IH]; intros; simpl.
  - by rewrite app_nil_r.
  - rewrite (bind_run _ _ _ _ _ (WRThread_join_run _ _ _ _ _ _ _ _)).
    rewrite IH. by rewrite <-app_assoc.
Qed.

Lemma join_fold (w : list WRThread) n k :
  ∀ i, foldl (λ w' t, <[t:=None]> w') w (seq k n) !! i
       = if decide (k ≤ i < k + n) then (λ _, None) <$> w !! i else w !! i.
Proof.
  revert w k. induction n as [|n IH]; intros w k i; simpl.
  - rewrite decide_False by lia. done.
  - rewrite IH. destruct (decide (i = k)) as [->|Hne].
    + rewrite decide_False, decide_True by lia.
      destruct (w !! k) eqn:E.
      * rewrite list_lookup_insert_eq; [done|]. by apply lookup_lt_Some in E.
      * rewrite lookup_ge_None_2; [done|]. rewrite length_insert. by apply lookup_ge_None_1.
    + assert (k ≠ i) as Hne' by done.
      destruct (decide (S k ≤ i < S k + n)), (decide (k ≤ i < k + S n));
        rewrite ?list_lookup_insert_ne by done; try done; exfalso; lia.
Qed.

Lemma join_all_run q tk w m l ith tr :
  join_all (State q tk w m l ith tr)
  = Done tt (State q tk (replicate (length w) None) m l ith
               (tr ++ map EvJoin (seq 0 (length w)))).
Proof.
  unfold join_all. run. rewrite for_each_join. do 3 f_equal.
  apply list_eq. intros i. rewrite join_fold.
  destruct (w !! i) eqn:E.
  - pose proof (lookup_lt_Some _ _ _ E). rewrite decide_True by lia.
    by rewrite lookup_replicate_2.
  - pose proof (lookup_ge_None_1 _ _ E). rewrite decide_False by lia.
    symmetry. by apply lookup_replicate_None.
Qed.

(** The stages *)


Lemma stage_compute_run k q tk w P G rp rg l ith tr d dk f r0 id lz :
  0 < k → k ≤ nzchunk cfg →
  b_data G !! ((k - 1) mod 2) = Some d →
  b_dark G !! ((k - 1) mod 2) = Some dk →
  b_flat G !! ((k - 1) mod 2) = Some f →
  rg !! ((k - 1) mod 2) = Some r0 →
  l !! (k - 1) = Some id →
  py_index (lzchunk cfg) id = Some lz →
  let out := RecOf d dk f (chunk_st cfg id) (chunk_st cfg id + lz) in
  stage_compute cfg k (State q tk w (Memory P G rp rg) l ith tr)
  = Done tt (State q tk w (Memory P G rp (<[(k - 1) mod 2 := out]> rg)) l ith
               (tr ++ [EvCompute (k - 1) ((k - 1) mod 2) out])).
Proof.
  intros H0 Hk Hd Hdk Hf Hr Hid Hlz out. unfold stage_compute.
  assert ((0 <? k) && (k <? nzchunk cfg + 1) = true) as ->.
  { apply andb_true_iff. split; apply Nat.ltb_lt; lia. }
  run. rewrite Hd. mred. rewrite Hdk. mred. rewrite Hf. mred. rewrite Hr. mred.
  rewrite Hid. mred. rewrite Hlz. mred. done.
Qed.

Lemma stage_compute_skip k s :
  k = 0 ∨ nzchunk cfg < k → stage_compute cfg k s = Done tt s.
Proof.
  intros H. unfold stage_compute.
  assert ((0 <? k) && (k <? nzchunk cfg + 1) = false) as ->; [|done].
  apply andb_false_iff. rewrite !Nat.ltb_ge. lia.
Qed.

Lemma stage_copy_out_run k q tk w P G rp rg l ith tr r :
  1 < k → 0 < length w → length rp = length w →
  rg !! ((k - 2) mod 2) = Some r →
  ∃ i tk' w',
    stage_copy_out k (State q tk w (Memory P G rp rg) l ith tr)
    = Done tt (State q tk' w' (Memory P G (<[i := r]> rp) rg) l (Some i)
                 (tr ++ [EvFindFree i; EvCopyOut (k - 2) ((k - 2) mod 2) i]))
    ∧ length w' = length w ∧ w' !! i = Some None.
Proof.
  intros Hk Hw Hrp Hr. unfold stage_copy_out.
  apply Nat.ltb_lt in Hk as ->.
  destruct (find_free_thread_run q tk w (Memory P G rp rg) l ith tr Hw)
    as (i & tk' & w' & Hrun & Hl & Hi).
  rewrite (bind_run _ _ _ _ _ Hrun). run. rewrite Hr. mred.
  destruct (lookup_lt_is_Some_2 rp i) as [x Hx].
  { apply lookup_lt_Some in Hi. lia. }
  rewrite Hx. run. exists i, tk', w'. rewrite <-app_assoc. done.
Qed.

Lemma stage_copy_out_skip k s : k ≤ 1 → stage_copy_out k s = Done tt s.
Proof. intros H. unfold stage_copy_out. apply Nat.ltb_ge in H as ->. done. Qed.

Lemma stage_ingest_run k it q tk w P G rp rg l ith tr (dP dG : array_name → list row) lz :
  k < nzchunk cfg → length l = k →
  py_index (lzchunk cfg) (item_id it) = Some lz →
  (∀ a, length (item_rows a it) = py_slice_stop (ncz cfg) lz) →
  (∀ a, get_buf a P !! (k mod 2) = Some (dP a)) →
  (∀ a, get_buf a G !! (k mod 2) = Some (dG a)) →
  (∀ a, length (dP a) = ncz cfg) →
  (∀ a, length (dG a) = ncz cfg) →
  let new a := item_rows a it ++ drop (length (item_rows a it)) (dP a) in
  ∃ P' G',
    stage_ingest cfg k (State (it :: q) tk w (Memory P G rp rg) l ith tr)
    = Done tt (State q tk w (Memory P' G' rp rg) (l ++ [item_id it]) ith
                 (tr ++ EvQueueGet k (item_id it)
                     :: ((λ a, EvPinnedWrite a k (k mod 2) (length (item_rows a it)))
                           <$> [Data; Dark; Flat])
                     ++ ((λ a, EvCopyIn a k (k mod 2) (ncz cfg)) <$> [Data; Dark; Flat])))
    ∧ (∀ a, get_buf a P' = <[k mod 2 := new a]> (get_buf a P))
    ∧ (∀ a, get_buf a G' = <[k mod 2 := new a]> (get_buf a G)).
Proof.
  intros Hk Hl Hlz Hrows HP HG HlP HlG new. unfold stage_ingest.
  apply Nat.ltb_lt in Hk as ->.
  assert ((l ++ [item_id it]) !! k = Some (item_id it)) as Hid.
  { rewrite lookup_app_r by lia. by replace (k - length l) with 0 by lia. }
  assert (∀ a, length (new a) = ncz cfg) as Hnew.
  { intros a. unfold new. rewrite length_app, length_drop, HlP, Hrows.
    pose proof (py_slice_stop_le (ncz cfg) lz). lia. }
  assert (∀ a (X : list (list row)) x, X !! (k mod 2) = Some x →
            <[k mod 2 := new a]> X !! (k mod 2) = Some (new a)) as Hins.
  { intros a X x HX. apply list_lookup_insert_eq. by apply lookup_lt_Some in HX. }
  step ltac:(reflexivity). norm.
  step ltac:(reflexivity). norm.
  step ltac:(reflexivity). norm.
  step ltac:(eapply (pinned_write_run Data); [exact Hid|exact Hlz|apply (HP Data)|];
             rewrite HlP; apply (Hrows Data)).
  step ltac:(eapply (pinned_write_run Dark); [exact Hid|exact Hlz|apply (HP Dark)|];
             rewrite HlP; apply (Hrows Dark)).
  step ltac:(eapply (pinned_write_run Flat); [exact Hid|exact Hlz|apply (HP Flat)|];
             rewrite HlP; apply (Hrows Flat)).
  norm. cbn [get_buf set_buf b_data b_dark b_flat].
  step ltac:(eapply (copy_in_run Data); [apply (HG Data)|eapply (Hins Data), (HP Data)|];
             by rewrite HlG, Hnew).
  step ltac:(eapply (copy_in_run Dark); [apply (HG Dark)|eapply (Hins Dark), (HP Dark)|];
             by rewrite HlG, Hnew).
  erewrite (copy_in_run Flat); [|apply (HG Flat)|eapply (Hins Flat), (HP Flat)|by rewrite HlG, Hnew].
  cbn [get_buf set_buf b_data b_dark b_flat]. rewrite !Hnew. eexists _, _. split.
  { f_equal. f_equal. rewrite <-!app_assoc. done. }
  split; by intros [].
Qed.

Lemma stage_ingest_skip k s : nzchunk cfg ≤ k → stage_ingest cfg k s = Done tt s.
Proof. intros H. unfold stage_ingest. apply Nat.ltb_ge in H as ->. done. Qed.

Lemma stage_dispatch_run k q tk w m l tr i id lz r :
  1 < k →
  l !! (k - 2) = Some id →
  py_index (lzchunk cfg) id = Some lz →
  rec_pinned m !! i = Some r →
  w !! i = Some None →
  ∃ tk' w',
    stage_dispatch cfg k (State q tk w m l (Some i) tr)
    = Done tt (State q tk' w' m l (Some i)
                 (tr ++ [EvRun i (write_data_chunk r (chunk_st cfg id) (chunk_st cfg id + lz) id
                                    (start_row cfg))]))
    ∧ length w' = length w.
Proof.
  intros Hk Hid Hlz Hr Hi. unfold stage_dispatch. apply Nat.ltb_lt in Hk as ->.
  run. rewrite Hid. mred. rewrite Hlz. mred. rewrite Hr. mred.
  apply WRThread_run_run. done.
Qed.

Lemma stage_dispatch_skip k s : k ≤ 1 → stage_dispatch cfg k s = Done tt s.
Proof. intros H. unfold stage_dispatch. apply Nat.ltb_ge in H as ->. done. Qed.

(** The loop *)
Lemma mod2_lt k : k mod 2 < 2.
Proof. apply Nat.mod_upper_bound. lia. Qed.

Lemma mod2_succ k : S k mod 2 ≠ k mod 2.
Proof.
  pose proof (Nat.div_mod_eq k 2). pose proof (Nat.div_mod_eq (S k) 2).
  pose proof (mod2_lt k). pose proof (mod2_lt (S k)). lia.
Qed.

Lemma input_ok_spec :
  input_ok cfg q0 = true →
  nzchunk cfg ≤ length q0
  ∧ Forall (λ it, item_ok cfg it = true) (take (nzchunk cfg) q0)
  ∧ 0 < max_write_threads cfg.
Proof.
  unfold input_ok. rewrite !andb_true_iff, Nat.leb_le, Nat.ltb_lt, forallb_forall.
  intros [[? Hall] ?]. split_and!; [done| |done].
  apply Forall_forall. intros it Hit. apply Hall. by apply list_elem_of_In.
Qed.

(** The [k]-th chunk of a fitting input. *)
Lemma chunk_lookup k :
  input_ok cfg q0 = true → k < nzchunk cfg →
  q0 !! k = Some (chunk q0 k)
  ∧ py_index (lzchunk cfg) (item_id (chunk q0 k)) = Some (chunk_lz cfg q0 k)
  ∧ ∀ a, length (item_rows a (chunk q0 k)) = py_slice_stop (ncz cfg) (chunk_lz cfg q0 k).
Proof.
  intros (Hlen & Hall & _)%input_ok_spec Hk.
  assert (q0 !! k = Some (chunk q0 k)) as Hit.
  { apply list_lookup_lookup_total_lt. lia. }
  rewrite Forall_lookup in Hall. specialize (Hall k (chunk q0 k)).
  rewrite lookup_take_lt in Hall by done.
  destruct (item_ok_rows _ (Hall Hit)) as (lz & Hlz & Hrows).
  unfold chunk_lz. rewrite Hlz. done.
Qed.

Lemma bufs_after_length a c : length (bufs_after cfg q0 a c) = 2.
Proof. induction c as [|c IH]; cbn [bufs_after]; [done|]. by rewrite length_insert. Qed.

Lemma bufs_after_lookup a c g :
  g < 2 → bufs_after cfg q0 a c !! g = Some (bufs_after cfg q0 a c !!! g).
Proof. intros Hg. apply list_lookup_lookup_total_lt. by rewrite bufs_after_length. Qed.

Lemma bufs_after_rows a c g :
  input_ok cfg q0 = true → c ≤ nzchunk cfg → g < 2 →
  length (bufs_after cfg q0 a c !!! g) = ncz cfg.
Proof.
  intros Hin Hc Hg. revert g Hg. induction c as [|c IH]; intros g Hg.
  - cbn [bufs_after]. rewrite list_lookup_total_alt, lookup_replicate_2 by done.
    apply length_replicate.
  - cbn [bufs_after]. destruct (decide (g = c mod 2)) as [->|Hne].
    + rewrite list_lookup_total_insert_eq by (rewrite bufs_after_length; apply mod2_lt).
      destruct (chunk_lookup c Hin) as (_ & _ & Hrows); [lia|].
      rewrite length_app, length_drop, IH, Hrows by (lia || apply mod2_lt).
      pose proof (py_slice_stop_le (ncz cfg) (chunk_lz cfg q0 c)). lia.
    + rewrite list_lookup_total_insert_ne by done. apply IH; [lia|done].
Qed.

(** A generation that no item has been ingested into is as allocated. *)
Lemma bufs_after_fresh a c g :
  c ≤ g → g < 2 → bufs_after cfg q0 a c !! g = Some (fresh_rows cfg a).
Proof.
  intros Hc Hg. induction c as [|c IH]; cbn [bufs_after].
  - by apply lookup_replicate_2.
  - assert (c = 0 ∧ g = 1) as [-> ->] by lia.
    rewrite list_lookup_insert_ne by done. apply IH. lia.
Qed.

Lemma cond_compute k :
  (0 <? k) && (k <? nzchunk cfg + 1) = bool_decide (1 ≤ k ≤ nzchunk cfg).
Proof.
  case_bool_decide as H.
  - apply andb_true_iff. rewrite !Nat.ltb_lt. lia.
  - apply andb_false_iff. rewrite !Nat.ltb_ge. lia.
Qed.

Lemma ids_lookup n k :
  input_ok cfg q0 = true → k < nzchunk cfg → k < n →
  (item_id <$> take n q0) !! k = Some (item_id (chunk q0 k)).
Proof.
  intros Hin Hk Hn. destruct (chunk_lookup k Hin Hk) as (Hit & _).
  by rewrite list_lookup_fmap, lookup_take_lt, Hit.
Qed.

Lemma compute_step j qs tk w P G rp rg ith tr :
  input_ok cfg q0 = true → j < nzchunk cfg + 2 →
  (∀ a, get_buf a G = bufs_after cfg q0 a (Nat.min j (nzchunk cfg))) →
  length rg = 2 →
  ∃ rg',
    stage_compute cfg j
      (State qs tk w (Memory P G rp rg)
         (item_id <$> take (Nat.min j (nzchunk cfg)) q0) ith tr)
    = Done tt (State qs tk w (Memory P G rp rg')
                 (item_id <$> take (Nat.min j (nzchunk cfg)) q0) ith
                 (tr ++ if (0 <? j) && (j <? nzchunk cfg + 1)
                        then [EvCompute (j - 1) ((j - 1) mod 2) (chunk_rec cfg q0 (j - 1))]
                        else []))
    ∧ length rg' = 2
    ∧ (1 ≤ j ≤ nzchunk cfg → rg' !! ((j - 1) mod 2) = Some (chunk_rec cfg q0 (j - 1)))
    ∧ (2 ≤ j → rg' !! ((j - 2) mod 2) = rg !! ((j - 2) mod 2)).
Proof.
  intros Hin Hj HG Hrg. rewrite cond_compute. case_bool_decide as Hk.
  - destruct (chunk_lookup (j - 1) Hin) as (Hit & Hlz & Hrows); [lia|].
    assert (∀ a, get_buf a G !! ((j - 1) mod 2) = Some (chunk_buf cfg q0 a (j - 1))) as Hbuf.
    { intros a. rewrite HG. unfold chunk_buf.
      replace (Nat.min j (nzchunk cfg)) with (S (j - 1)) by lia.
      apply bufs_after_lookup, mod2_lt. }
    destruct (lookup_lt_is_Some_2 rg ((j - 1) mod 2)) as [r0 Hr0].
    { rewrite Hrg. apply mod2_lt. }
    eexists. split.
    { eapply stage_compute_run;
        [lia|lia|apply (Hbuf Data)|apply (Hbuf Dark)|apply (Hbuf Flat)|exact Hr0| |exact Hlz].
      apply ids_lookup; [done|lia|lia]. }
    split; [by rewrite length_insert|]. split.
    + intros _. apply list_lookup_insert_eq. rewrite Hrg. apply mod2_lt.
    + intros H2. apply list_lookup_insert_ne.
      replace (j - 1) with (S (j - 2)) by lia. apply mod2_succ.
  - exists rg. rewrite app_nil_r. split; [apply stage_compute_skip; lia|].
    split; [done|]. split; [intros; lia|done].
Qed.

Lemma copy_out_step j qs tk w P G rp rg l ith tr r :
  length w = max_write_threads cfg → length rp = max_write_threads cfg →
  0 < max_write_threads cfg →
  (2 ≤ j → rg !! ((j - 2) mod 2) = Some r) →
  ∃ tk' w' rp' ith' i,
    stage_copy_out j (State qs tk w (Memory P G rp rg) l ith tr)
    = Done tt (State qs tk' w' (Memory P G rp' rg) l ith'
                 (tr ++ if 1 <? j then [EvFindFree i; EvCopyOut (j - 2) ((j - 2) mod 2) i]
                        else []))
    ∧ length w' = max_write_threads cfg ∧ length rp' = max_write_threads cfg
    ∧ (2 ≤ j → ith' = Some i ∧ i < max_write_threads cfg
               ∧ w' !! i = Some None ∧ rp' !! i = Some r).
Proof.
  intros Hw Hrp HW Hr. destruct (decide (2 ≤ j)) as [Hj|Hj].
  - destruct (stage_copy_out_run j qs tk w P G rp rg l ith tr r)
      as (i & tk' & w' & Hrun & Hl & Hi); [lia|lia|lia|by apply Hr|].
    assert (i < max_write_threads cfg) as Hlt.
    { apply lookup_lt_Some in Hi. lia. }
    exists tk', w', (<[i:=r]> rp), (Some i), i.
    assert ((1 <? j) = true) as -> by (apply Nat.ltb_lt; lia).
    split; [done|]. rewrite length_insert. split; [lia|]. split; [done|].
    intros _. split_and!; [done..|]. apply list_lookup_insert_eq. lia.
  - exists tk, w, rp, ith, 0.
    assert ((1 <? j) = false) as -> by (apply Nat.ltb_ge; lia).
    rewrite app_nil_r. split; [apply stage_copy_out_skip; lia|].
    split_and!; [done..|]. intros; lia.
Qed.

Lemma ingest_step j tk w P G rp rg ith tr :
  input_ok cfg q0 = true → j < nzchunk cfg + 2 →
  (∀ a, get_buf a P = bufs_after cfg q0 a (Nat.min j (nzchunk cfg))) →
  (∀ a, get_buf a G = bufs_after cfg q0 a (Nat.min j (nzchunk cfg))) →
  ∃ P' G',
    stage_ingest cfg j
      (State (drop (Nat.min j (nzchunk cfg)) q0) tk w (Memory P G rp rg)
         (item_id <$> take (Nat.min j (nzchunk cfg)) q0) ith tr)
    = Done tt (State (drop (Nat.min (S j) (nzchunk cfg)) q0) tk w (Memory P' G' rp rg)
                 (item_id <$> take (Nat.min (S j) (nzchunk cfg)) q0) ith
                 (tr ++ if j <? nzchunk cfg then ingest_events cfg q0 j else []))
    ∧ (∀ a, get_buf a P' = bufs_after cfg q0 a (Nat.min (S j) (nzchunk cfg)))
    ∧ (∀ a, get_buf a G' = bufs_after cfg q0 a (Nat.min (S j) (nzchunk cfg))).
Proof.
  intros Hin Hj HP HG. destruct (decide (j < nzchunk cfg)) as [Hk|Hk].
  - destruct (chunk_lookup j Hin Hk) as (Hit & Hlz & Hrows).
    replace (Nat.min j (nzchunk cfg)) with j in * by lia.
    replace (Nat.min (S j) (nzchunk cfg)) with (S j) by lia.
    rewrite (drop_S _ _ _ Hit).
    set (old a := bufs_after cfg q0 a j !!! (j mod 2)).
    destruct (stage_ingest_run j (chunk q0 j) (drop (S j) q0) tk w P G rp rg
                (item_id <$> take j q0) ith tr old old (chunk_lz cfg q0 j))
      as (P' & G' & Hrun & HP' & HG'); [done| |done|done| | | | |].
    { rewrite length_fmap, length_take. apply lookup_lt_Some in Hit. lia. }
    { intros a. rewrite HP. apply bufs_after_lookup, mod2_lt. }
    { intros a. rewrite HG. apply bufs_after_lookup, mod2_lt. }
    { intros a. apply bufs_after_rows; [done|lia|apply mod2_lt]. }
    { intros a. apply bufs_after_rows; [done|lia|apply mod2_lt]. }
    exists P', G'. assert ((j <? nzchunk cfg) = true) as -> by (by apply Nat.ltb_lt).
    split.
    { rewrite Hrun. erewrite take_S_r by done. by rewrite fmap_app. }
    split; intros a; [rewrite HP', HP|rewrite HG', HG]; done.
  - assert ((j <? nzchunk cfg) = false) as -> by (apply Nat.ltb_ge; lia).
    rewrite app_nil_r.
    replace (Nat.min (S j) (nzchunk cfg)) with (Nat.min j (nzchunk cfg)) by lia.
    exists P, G. split; [apply stage_ingest_skip; lia|done].
Qed.

Lemma dispatch_step j qs tk w m tr ith i :
  input_ok cfg q0 = true → j < nzchunk cfg + 2 →
  length w = max_write_threads cfg →
  (2 ≤ j → ith = Some i ∧ w !! i = Some None
           ∧ rec_pinned m !! i = Some (chunk_rec cfg q0 (j - 2))) →
  ∃ tk' w',
    stage_dispatch cfg j
      (State qs tk w m (item_id <$> take (Nat.min (S j) (nzchunk cfg)) q0) ith tr)
    = Done tt (State qs tk' w' m (item_id <$> take (Nat.min (S j) (nzchunk cfg)) q0) ith
                 (tr ++ if 1 <? j then [EvRun i (chunk_job cfg q0 (j - 2))] else []))
    ∧ length w' = max_write_threads cfg.
Proof.
  intros Hin Hj Hw H. destruct (decide (2 ≤ j)) as [H2|H2].
  - destruct (H H2) as (-> & Hi & Hr).
    destruct (chunk_lookup (j - 2) Hin) as (Hit & Hlz & _); [lia|].
    assert ((1 <? j) = true) as -> by (apply Nat.ltb_lt; lia).
    destruct (stage_dispatch_run j qs tk w m
                (item_id <$> take (Nat.min (S j) (nzchunk cfg)) q0)
                tr i (item_id (chunk q0 (j - 2))) (chunk_lz cfg q0 (j - 2))
                (chunk_rec cfg q0 (j - 2)))
      as (tk' & w' & Hrun & Hl); [lia| |done..|].
    { apply ids_lookup; [done|lia|lia]. }
    exists tk', w'. split; [done|lia].
  - assert ((1 <? j) = false) as -> by (apply Nat.ltb_ge; lia).
    exists tk, w. rewrite app_nil_r. split; [apply stage_dispatch_skip; lia|done].
Qed.

(** One turn of the loop preserves the invariant. *)
Lemma conveyor_body_run j s :
  input_ok cfg q0 = true → j < nzchunk cfg + 2 → inv cfg q0 j s →
  ∃ s', conveyor_body cfg j s = Done tt s' ∧ inv cfg q0 (S j) s'.
Proof.
  intros Hin Hj Hinv. destruct s as [qs tk w [P G rp rg] l ith tr].
  destruct Hinv as [Hq Hids Hw Hrp Hrg HP HG Hrec (segs & Htr & Hsegs & Hshape)].
  cbn [data_queue ids write_threads mem rec_pinned rec_gpu item_pinned item_gpu trace] in *.
  subst qs l.
  destruct (compute_step j (drop (Nat.min j (nzchunk cfg)) q0) tk w P G rp rg ith
              (tr ++ [EvProgress j]) Hin Hj HG Hrg)
    as (rg' & Hc & Hrg' & Hrc & Hkeep).
  match type of Hc with _ = Done _ (State _ _ _ _ _ _ ?t) => set (tr1 := t) in * end.
  destruct (copy_out_step j (drop (Nat.min j (nzchunk cfg)) q0) tk w P G rp rg'
              (item_id <$> take (Nat.min j (nzchunk cfg)) q0) ith tr1
              (chunk_rec cfg q0 (j - 2)) Hw Hrp)
    as (tk1 & w1 & rp1 & ith1 & i & Hco & Hw1 & Hrp1 & Hi).
  { by apply input_ok_spec in Hin as (_ & _ & ?). }
  { intros H2. rewrite Hkeep by done. apply Hrec. lia. }
  match type of Hco with _ = Done _ (State _ _ _ _ _ _ ?t) => set (tr2 := t) in * end.
  destruct (ingest_step j tk1 w1 P G rp1 rg' ith1 tr2 Hin Hj HP HG)
    as (P' & G' & Hing & HP' & HG').
  match type of Hing with _ = Done _ (State _ _ _ _ _ _ ?t) => set (tr3 := t) in * end.
  destruct (dispatch_step j (drop (Nat.min (S j) (nzchunk cfg)) q0) tk1 w1
              (Memory P' G' rp1 rg') (tr3 ++ [EvSync Stream3]) ith1 i Hin Hj Hw1)
    as (tk2 & w2 & Hd & Hw2).
  { intros H2. destruct (Hi H2) as (? & ? & ? & ?). done. }
  eexists. split.
  { unfold conveyor_body.
    step ltac:(reflexivity). norm.
    step ltac:(exact Hc).
    step ltac:(exact Hco).
    step ltac:(exact Hing).
    step ltac:(reflexivity). norm.
    step ltac:(exact Hd).
    step ltac:(reflexivity). norm.
    reflexivity. }
  constructor; cbn [data_queue ids write_threads mem rec_pinned rec_gpu item_pinned item_gpu trace
                    set_trace]; try done.
  - intros Hk. replace (S j - 2) with (j - 1) by lia. apply Hrc. lia.
  - exists (segs ++ [iteration_events cfg q0 j i]). split; [|split].
    + subst tr1 tr2 tr3. rewrite concat_app. cbn [concat]. rewrite app_nil_r, <-Htr.
      unfold iteration_events. rewrite <-!app_assoc. done.
    + rewrite length_app. simpl. lia.
    + intros k seg Hk. apply lookup_app_Some in Hk as [Hk|[Hge Hk]]; [by apply Hshape|].
      rewrite Hsegs in *. destruct (k - j) as [|n] eqn:E; [|done].
      assert (k = j) as -> by lia. simplify_eq/=.
      exists i. split; [done|]. intros H2. by destruct (Hi H2) as (? & ? & ?).
Qed.

Lemma for_each_snoc {A} (l : list A) (x : A) (body : A → M unit) s :
  for_each (l ++ [x]) body s = (for_each l body ;; body x) s.
Proof.
  revert s. induction l as [|y l IH]; intros s; cbn [for_each app].
  - unfold mbind, M_bind. cbn. by destruct (body x s) as [[] ?| |].
  - unfold mbind, M_bind in *. destruct (body y s) as [[] s1| |]; [|done..].
    apply IH.
Qed.

Lemma allocate_run tks :
  ∃ s, allocate cfg (init_state cfg q0 tks) = Done tt s ∧ inv cfg q0 0 s.
Proof.
  eexists. split; [reflexivity|].
  constructor; cbn.
  - by rewrite drop_0.
  - done.
  - apply length_replicate.
  - apply length_replicate.
  - done.
  - by intros [].
  - by intros [].
  - lia.
  - exists []. split_and!; [done..|]. intros k seg Hk. done.
Qed.

Lemma conveyor_run j s :
  input_ok cfg q0 = true → j ≤ nzchunk cfg + 2 → inv cfg q0 0 s →
  ∃ s', conveyor cfg j s = Done tt s' ∧ inv cfg q0 j s'.
Proof.
  intros Hin Hj H0. induction j as [|j IH].
  - exists s. done.
  - destruct IH as (s1 & Hrun & Hinv); [lia|].
    destruct (conveyor_body_run j s1 Hin) as (s2 & Hbody & Hinv2); [lia|done|].
    exists s2. split; [|done]. unfold conveyor.
    rewrite seq_S, for_each_snoc. cbn [plus]. fold (conveyor cfg j).
    by rewrite (bind_run _ _ _ _ _ Hrun).
Qed.

(** A run of [recon_all] on a fitting input returns, and its trace is the
    events of the [nzchunk + 2] turns followed by the joins. *)
Lemma recon_all_run tks :
  input_ok cfg q0 = true →
  ∃ s' segs,
    recon_all cfg (init_state cfg q0 tks) = Done tt s'
    ∧ trace s' = concat segs ++ (EvJoin <$> seq 0 (max_write_threads cfg))
    ∧ length segs = nzchunk cfg + 2
    ∧ (∀ k seg, segs !! k = Some seg → iteration_shape cfg q0 k seg)
    ∧ write_threads s' = replicate (max_write_threads cfg) None
    ∧ ids s' = item_id <$> take (nzchunk cfg) q0
    ∧ data_queue s' = drop (nzchunk cfg) q0.
Proof.
  intros Hin. destruct (allocate_run tks) as (s0 & Ha & H0).
  destruct (conveyor_run (nzchunk cfg + 2) s0 Hin) as (s1 & Hc & Hinv); [lia|done|].
  destruct s1 as [qs tk w m l ith tr].
  destruct Hinv as [Hq Hids Hw _ _ _ _ _ (segs & Htr & Hsegs & Hshape)]. cbn in *.
  eexists _, segs. split.
  { unfold recon_all. step ltac:(exact Ha). step ltac:(exact Hc). apply join_all_run. }
  cbn. rewrite Hw, Htr. split_and!; [done..| |].
  - rewrite Hids. by replace (Nat.min (nzchunk cfg + 2) (nzchunk cfg)) with (nzchunk cfg) by lia.
  - rewrite Hq. by replace (Nat.min (nzchunk cfg + 2) (nzchunk cfg)) with (nzchunk cfg) by lia.
Qed.
End ConveyorProofs.

(** Witness of [interleave_roundtrip]: the two bands [1 2 3 4] and [5 6 7 8]
    are interleaved element by element and recovered. *)
Lemma interleave_roundtrip_volume8 :
  Nat.Even 2 ∧ shape volume8 = [2; 2; 2] ∧ well_shaped volume8
  ∧ ∃ d', interleave_input 2 volume8 = Some d'
          ∧ buf d' = [1; 5; 2; 6; 3; 7; 4; 8]%Z
          ∧ deinterleave_output 2 2 d' = Some volume8.
Proof.
  assert (Nat.Even 2) as He by (exists 1; reflexivity).
  split_and!; [exact He|reflexivity|reflexivity|].
  destruct (interleave_roundtrip 2 2 volume8 He eq_refl eq_refl) as (d' & Hi & Hd).
  exists d'. split_and!; [exact Hi| |exact Hd].
  vm_compute in Hi. injection Hi as <-. reflexivity.
Defined.

(** ** Part V.  The schedule of the conveyor *)

Section Schedule.
Variable cfg : config.
Variable q0 : list item.

Lemma omap_concat {A B} (f : A → option B) (ls : list (list A)) :
  omap f (concat ls) = concat (omap (M:=list) f <$> ls).
Proof. induction ls as [|l ls IH]; [done|]. cbn. by rewrite omap_app, IH. Qed.

Lemma segs_pointwise {B} (G : list event → B) (F : nat → B) (segs : list (list event)) :
  (∀ k seg, segs !! k = Some seg → G seg = F k) →
  G <$> segs = F <$> seq 0 (length segs).
Proof.
  intros H. apply list_eq. intros k. rewrite !list_lookup_fmap.
  destruct (segs !! k) as [seg|] eqn:E; cbn.
  - rewrite (H _ _ E). apply lookup_lt_Some in E. by rewrite lookup_seq_lt.
  - apply lookup_ge_None_1 in E. by rewrite lookup_seq_ge.
Qed.

Lemma concat_nil_map {A B} (F : A → list B) (l : list A) :
  (∀ x, x ∈ l → F x = []) → concat (F <$> l) = [].
Proof.
  induction l as [|x l IH]; intros H; [done|]. cbn.
  rewrite H by left. apply IH. intros y Hy. apply H. by right.
Qed.

Lemma concat_singleton_map {A B} (F : A → list B) (g : A → B) (l : list A) :
  (∀ x, x ∈ l → F x = [g x]) → concat (F <$> l) = g <$> l.
Proof.
  induction l as [|x l IH]; intros H; [done|]. cbn.
  rewrite H by left. cbn. f_equal. apply IH. intros y Hy. apply H. by right.
Qed.

(** What fires exactly in the turns [a <= k < a + n], over [m] turns, fires
    [n] times, in order. *)
Lemma window_map {B} (g : nat → B) (a n m : nat) :
  a + n ≤ m →
  concat ((λ k, if bool_decide (a ≤ k < a + n) then [g (k - a)] else []) <$> seq 0 m)
  = g <$> seq 0 n.
Proof.
  intros Hm. replace m with (a + (n + (m - a - n))) by lia.
  rewrite !seq_app, !fmap_app, !concat_app.
  rewrite (concat_nil_map _ (seq 0 a)), (concat_nil_map _ (seq (0 + a + n) _)).
  - rewrite app_nil_r. cbn [app].
    rewrite (concat_singleton_map _ (λ k, g (k - a))).
    + apply list_eq. intros i. rewrite !list_lookup_fmap.
      destruct (decide (i < n)).
      * rewrite !lookup_seq_lt by done. cbn. do 2 f_equal. lia.
      * rewrite !lookup_seq_ge by lia. done.
    + intros k [? ?]%elem_of_seq. rewrite bool_decide_eq_true_2; [done|lia].
  - intros k [? ?]%elem_of_seq. rewrite bool_decide_eq_false_2; [done|lia].
  - intros k [? ?]%elem_of_seq. rewrite bool_decide_eq_false_2; [done|lia].
Qed.

Lemma window_chunks (a n m : nat) :
  a + n ≤ m →
  concat ((λ k, if bool_decide (a ≤ k < a + n) then [k - a] else []) <$> seq 0 m)
  = seq 0 n.
Proof. intros Hm. rewrite (window_map id) by done. apply list_fmap_id. Qed.

(** The events of one turn, with the tests of the loop body decided. *)
Lemma iteration_events_eq k i :
  iteration_events cfg q0 k i
  = EvProgress k
    :: (if bool_decide (1 ≤ k ≤ nzchunk cfg)
        then [EvCompute (k - 1) ((k - 1) mod 2) (chunk_rec cfg q0 (k - 1))] else [])
    ++ (if bool_decide (2 ≤ k)
        then [EvFindFree i; EvCopyOut (k - 2) ((k - 2) mod 2) i] else [])
    ++ (if bool_decide (k < nzchunk cfg) then ingest_events cfg q0 k else [])
    ++ [EvSync Stream3]
    ++ (if bool_decide (2 ≤ k) then [EvRun i (chunk_job cfg q0 (k - 2))] else [])
    ++ [EvSync Stream1; EvSync Stream2].
Proof.
  unfold iteration_events. rewrite cond_compute.
  f_equal. f_equal. f_equal; [|f_equal; [|f_equal; f_equal]].
  - destruct (Nat.ltb_spec 1 k); case_bool_decide; try lia; done.
  - destruct (Nat.ltb_spec k (nzchunk cfg)); case_bool_decide; try lia; done.
  - destruct (Nat.ltb_spec 1 k); case_bool_decide; try lia; done.
Qed.

Lemma seg_schedule k i :
  k < nzchunk cfg + 2 →
  let seg := iteration_events cfg q0 k i in
  omap progress seg = [k]
  ∧ fired Compute seg = (if bool_decide (1 ≤ k < 1 + nzchunk cfg) then [k - 1] else [])
  ∧ fired Egest seg = (if bool_decide (2 ≤ k < 2 + nzchunk cfg) then [k - 2] else [])
  ∧ fired Ingest seg = (if bool_decide (0 ≤ k < 0 + nzchunk cfg) then [k - 0] else [])
  ∧ length (omap dispatched seg) = length (fired Egest seg).
Proof.
  intros Hk seg. subst seg. rewrite iteration_events_eq.
  unfold fired. split_and!; seg_cases; try done; by rewrite Nat.sub_0_r.
Qed.

Lemma length_concat_fmap_eq {A B C} (F : A → list B) (G : A → list C) (l : list A) :
  (∀ x, x ∈ l → length (F x) = length (G x)) →
  length (concat (F <$> l)) = length (concat (G <$> l)).
Proof.
  induction l as [|x l IH]; intros H; [done|]. cbn.
  rewrite !length_app, H by left. f_equal. apply IH. intros y Hy. apply H. by right.
Qed.

Lemma omap_joins {B} (f : event → option B) (l : list nat) :
  (∀ t, f (EvJoin t) = None) → omap f (EvJoin <$> l) = [].
Proof. intros H. induction l as [|t l IH]; [done|]. cbn. by rewrite H. Qed.

Lemma fired_concat st (segs : list (list event)) :
  fired st (concat segs) = concat (fired st <$> segs).
Proof. apply omap_concat. Qed.

Lemma fired_segs st (a n : nat) (segs : list (list event)) :
  a + n ≤ length segs →
  (∀ k seg, segs !! k = Some seg →
     fired st seg = if bool_decide (a ≤ k < a + n) then [k - a] else []) →
  fired st (concat segs) = seq 0 n.
Proof.
  intros Hlen H. rewrite fired_concat.
  rewrite (segs_pointwise _ (λ k, if bool_decide (a ≤ k < a + n) then [k - a] else []) segs H).
  by apply window_chunks.
Qed.

Lemma fired_whole st (a n : nat) (segs : list (list event)) (joins : list nat) :
  a + n ≤ length segs →
  (∀ k seg, segs !! k = Some seg →
     fired st seg = if bool_decide (a ≤ k < a + n) then [k - a] else []) →
  fired st (concat segs ++ (EvJoin <$> joins)) = seq 0 n.
Proof.
  intros Hlen H. unfold fired at 1. rewrite omap_app, omap_joins, app_nil_r by done.
  by apply (fired_segs st a).
Qed.

(** C1.  For every chunk count [nzchunk] and every fitting input, the loop
    of [recon_all] takes exactly [nzchunk + 2] turns with counter
    [k = 0 .. nzchunk + 1]; in turn [k] the reconstruction fires exactly
    when [1 <= k <= nzchunk], on chunk [k - 1], the write-out exactly when
    [2 <= k <= nzchunk + 1], on chunk [k - 2], and the ingest exactly when
    [k < nzchunk], on chunk [k]; over the run every stage fires once on each
    chunk [0 .. nzchunk - 1] and exactly [nzchunk] write jobs are
    dispatched. *)
Theorem conveyor_schedule tks :
  input_ok cfg q0 = true →
  ∃ s' segs,
    recon_all cfg (init_state cfg q0 tks) = Done tt s'
    ∧ trace s' = concat segs ++ (EvJoin <$> seq 0 (max_write_threads cfg))
    ∧ length segs = nzchunk cfg + 2
    ∧ (∀ k seg, segs !! k = Some seg →
         omap progress seg = [k]
         ∧ fired Compute seg = (if bool_decide (1 ≤ k ≤ nzchunk cfg) then [k - 1] else [])
         ∧ fired Egest seg = (if bool_decide (2 ≤ k ≤ nzchunk cfg + 1) then [k - 2] else [])
         ∧ fired Ingest seg = (if bool_decide (k < nzchunk cfg) then [k] else [])
         ∧ length (omap dispatched seg) = length (fired Egest seg))
    ∧ fired Compute (trace s') = seq 0 (nzchunk cfg)
    ∧ fired Egest (trace s') = seq 0 (nzchunk cfg)
    ∧ fired Ingest (trace s') = seq 0 (nzchunk cfg)
    ∧ length (omap dispatched (trace s')) = nzchunk cfg.
Proof.
  intros Hin.
  destruct (recon_all_run cfg q0 tks Hin) as (s' & segs & Hrun & Htr & Hlen & Hshape & _).
  assert (∀ k seg, segs !! k = Some seg →
            omap progress seg = [k]
            ∧ fired Compute seg
              = (if bool_decide (1 ≤ k < 1 + nzchunk cfg) then [k - 1] else [])
            ∧ fired Egest seg
              = (if bool_decide (2 ≤ k < 2 + nzchunk cfg) then [k - 2] else [])
            ∧ fired Ingest seg
              = (if bool_decide (0 ≤ k < 0 + nzchunk cfg) then [k - 0] else [])
            ∧ length (omap dispatched seg) = length (fired Egest seg)) as Hseg.
  { intros k seg Hk. destruct (Hshape k seg Hk) as (i & -> & _).
    apply seg_schedule. apply lookup_lt_Some in Hk. lia. }
  exists s', segs. split; [done|]. split; [done|]. split; [done|]. split.
  { intros k seg Hk. destruct (Hseg k seg Hk) as (Hp & Hc & He & Hi & Hd).
    rewrite Hp, Hd. rewrite Hc, He, Hi. rewrite Nat.sub_0_r.
    split_and!; try done; repeat case_bool_decide; try done; exfalso; lia. }
  rewrite Htr. split_and!.
  - apply (fired_whole Compute 1); [lia|]. intros k seg Hk. apply (Hseg k seg Hk).
  - apply (fired_whole Egest 2); [lia|]. intros k seg Hk. apply (Hseg k seg Hk).
  - apply (fired_whole Ingest 0); [lia|]. intros k seg Hk. apply (Hseg k seg Hk).
  - rewrite omap_app, omap_joins, app_nil_r, omap_concat by done.
    rewrite (length_concat_fmap_eq _ (fired Egest)).
    + rewrite <-fired_concat, (fired_segs Egest 2 (nzchunk cfg)), length_seq; [done|lia|].
      intros k seg Hk. apply (Hseg k seg Hk).
    + intros seg [k Hk]%list_elem_of_lookup. apply (Hseg k seg Hk).
Qed.
End Schedule.

(** The run on three chunks: the loop takes five turns, and the stages fire
    in them as the scenario for three chunks lists. *)
Lemma conveyor_schedule_three :
  input_ok cfg3 queue3 = true
  ∧ ∃ s', recon_all cfg3 (init_state cfg3 queue3 []) = Done tt s'
          ∧ firings <$> turns (trace s')
            = [[(Ingest, 0)];
               [(Compute, 0); (Ingest, 1)];
               [(Compute, 1); (Egest, 0); (Ingest, 2)];
               [(Compute, 2); (Egest, 1)];
               [(Egest, 2)]]
          ∧ fired Compute (trace s') = [0; 1; 2]
          ∧ fired Egest (trace s') = [0; 1; 2]
          ∧ fired Ingest (trace s') = [0; 1; 2]
          ∧ length (omap dispatched (trace s')) = 3.
Proof.
  split; [reflexivity|].
  destruct (conveyor_schedule cfg3 queue3 [] eq_refl)
    as (s' & segs & Hrun & _ & _ & _ & Hc & He & Hi & Hd).
  exists s'. split; [exact Hrun|]. split; [|by split_and!].
  vm_compute in Hrun. injection Hrun as <-. vm_compute. reflexivity.
Defined.

(** ** Part VI.  Buffer generations *)

Section Generations.
Variable cfg : config.
Variable q0 : list item.

Lemma Forall_concat {A} (P : A → Prop) (ls : list (list A)) :
  Forall (Forall P) ls → Forall P (concat ls).
Proof. induction 1; cbn; [done|]. by apply Forall_app. Qed.

Lemma seg_gens k i :
  k < nzchunk cfg + 2 →
  Forall (λ p, p.1 < nzchunk cfg ∧ p.2 = p.1 mod 2)
    (omap chunk_gen (iteration_events cfg q0 k i)).
Proof.
  intros Hk. rewrite iteration_events_eq.
  repeat case_bool_decide; try (exfalso; lia); cbn;
    repeat (constructor; [cbn; split; [lia|done]|]); constructor.
Qed.

(** C2, as the code has it.  On every fitting input, each event that
    touches a chunk buffer uses generation [c mod 2], where [c] is the
    position of the chunk in arrival order (the [c]-th item pulled from
    the queue, whose id is recorded as [ids[c]]); when that item carries
    the id [c], as it does when the reader delivers in id order, the
    generation is the id modulo 2. *)
Theorem generation_by_position tks :
  input_ok cfg q0 = true →
  ∃ s',
    recon_all cfg (init_state cfg q0 tks) = Done tt s'
    ∧ ids s' = item_id <$> take (nzchunk cfg) q0
    ∧ ∀ c g, (c, g) ∈ omap chunk_gen (trace s') →
        c < nzchunk cfg
        ∧ g = c mod 2
        ∧ (item_id (chunk q0 c) = Z.of_nat c →
           Z.of_nat g = (item_id (chunk q0 c) `mod` 2)%Z).
Proof.
  intros Hin.
  destruct (recon_all_run cfg q0 tks Hin)
    as (s' & segs & Hrun & Htr & Hlen & Hshape & _ & Hids & _).
  exists s'. split; [done|]. split; [done|].
  assert (Forall (λ p, p.1 < nzchunk cfg ∧ p.2 = p.1 mod 2) (omap chunk_gen (trace s')))
    as Hall.
  { rewrite Htr, omap_app, omap_joins, app_nil_r, omap_concat by done.
    apply Forall_concat, Forall_fmap, Forall_lookup. intros k seg Hk. cbn.
    destruct (Hshape k seg Hk) as (i & -> & _). apply seg_gens.
    apply lookup_lt_Some in Hk. lia. }
  intros c g Hcg. rewrite Forall_forall in Hall. destruct (Hall _ Hcg) as [Hc Hg].
  cbn in Hc, Hg. split; [done|]. split; [done|]. intros Hid.
  rewrite Hid, Hg. apply (Nat2Z.inj_mod c 2).
Qed.
End Generations.

(** Witness of [generation_by_position]: the three chunks delivered in id
    order use the generations 0, 1, 0. *)
Lemma generation_by_position_three :
  input_ok cfg3 queue3 = true
  ∧ ∃ s', recon_all cfg3 (init_state cfg3 queue3 []) = Done tt s'
          ∧ ∀ c g, (c, g) ∈ omap chunk_gen (trace s') →
              c < 3 ∧ g = c mod 2
              ∧ (item_id (chunk queue3 c) = Z.of_nat c →
                 Z.of_nat g = (item_id (chunk queue3 c) `mod` 2)%Z).
Proof.
  split; [reflexivity|].
  destruct (generation_by_position cfg3 queue3 [] eq_refl) as (s' & Hrun & _ & H).
  exists s'. split; [exact Hrun|exact H].
Defined.

(** C2 as stated fails when the reader delivers out of id order: the chunk
    with id 1 arrives first and goes through ingest, reconstruction and
    write-out on generation 0. *)
Lemma generation_by_id_counterexample :
  ∃ s', recon_all cfg_swapped (init_state cfg_swapped queue_swapped []) = Done tt s'
        ∧ EvQueueGet 0 1 ∈ trace s'
        ∧ EvPinnedWrite Data 0 0 2 ∈ trace s'
        ∧ EvCopyIn Data 0 0 2 ∈ trace s'
        ∧ EvCompute 0 0 (chunk_rec cfg_swapped queue_swapped 0) ∈ trace s'
        ∧ EvCopyOut 0 0 0 ∈ trace s'
        ∧ item_id (chunk queue_swapped 0) = 1%Z
        ∧ Z.of_nat 0 ≠ (item_id (chunk queue_swapped 0) `mod` 2)%Z.
Proof.
  eexists. split; [vm_compute; reflexivity|].
  split_and!; [in_trace..|reflexivity|vm_compute; discriminate].
Qed.

(** ** Part VII.  Synchronisation and write-out *)

Section WriteOut.
Variable cfg : config.
Variable q0 : list item.

Lemma seg_sync k i :
  k < nzchunk cfg + 2 →
  ∃ pre wr,
    iteration_events cfg q0 k i
    = EvProgress k :: pre ++ [EvSync Stream3] ++ wr ++ [EvSync Stream1; EvSync Stream2]
    ∧ Forall (λ e, is_sync e = false ∧ is_run e = false) pre
    ∧ (2 ≤ k → EvCopyOut (k - 2) ((k - 2) mod 2) i ∈ pre
               ∧ wr = [EvRun i (chunk_job cfg q0 (k - 2))])
    ∧ (k < 2 → wr = []).
Proof.
  intros Hk. rewrite iteration_events_eq.
  exists ((if bool_decide (1 ≤ k ≤ nzchunk cfg)
           then [EvCompute (k - 1) ((k - 1) mod 2) (chunk_rec cfg q0 (k - 1))] else [])
          ++ (if bool_decide (2 ≤ k)
              then [EvFindFree i; EvCopyOut (k - 2) ((k - 2) mod 2) i] else [])
          ++ (if bool_decide (k < nzchunk cfg) then ingest_events cfg q0 k else [])),
         (if bool_decide (2 ≤ k) then [EvRun i (chunk_job cfg q0 (k - 2))] else []).
  split.
  { f_equal. by rewrite <-!app_assoc. }
  split; [|split].
  - repeat apply Forall_app_2; repeat case_bool_decide; by repeat constructor.
  - intros H2. rewrite !(bool_decide_eq_true_2 (2 ≤ k)) by done. split; [|done].
    apply elem_of_app. right. apply elem_of_app. left. by repeat constructor.
  - intros H2. by rewrite !(bool_decide_eq_false_2 (2 ≤ k)) by lia.
Qed.

Lemma run_after_sync_app a b :
  run_after_sync a → run_after_sync b → run_after_sync (a ++ b).
Proof.
  intros Ha Hb tr1 e tr2 Heq He.
  apply List.app_eq_app in Heq as [l [[-> Hl]|[-> ->]]].
  - destruct l as [|e' l]; cbn in Hl.
    + destruct (Hb [] e tr2) as [tr0 H0]; [done..|]. by destruct tr0.
    + simplify_eq. by apply (Ha tr1 e' l).
  - destruct (Hb l e tr2) as [tr0 ->]; [done..|].
    exists (a ++ tr0). by rewrite app_assoc.
Qed.

Lemma run_after_sync_none l :
  Forall (λ e, is_run e = false) l → run_after_sync l.
Proof.
  intros Hl tr1 e tr2 -> He. rewrite Forall_app, Forall_cons in Hl.
  destruct Hl as (_ & He' & _). congruence.
Qed.

Lemma run_after_sync_pair i j : run_after_sync [EvSync Stream3; EvRun i j].
Proof.
  intros tr1 e tr2 Heq He. destruct tr1 as [|e1 [|e2 [|e3 tr1]]]; simplify_eq/=.
  by exists [].
Qed.

Lemma run_after_sync_concat ls :
  Forall run_after_sync ls → run_after_sync (concat ls).
Proof.
  induction 1; cbn; [by apply run_after_sync_none|]. by apply run_after_sync_app.
Qed.

Lemma in_flight_synced tr : copies_in_flight (tr ++ [EvSync Stream3]) = [].
Proof. unfold copies_in_flight. by rewrite foldl_app. Qed.

Lemma seg_run_after_sync k i :
  k < nzchunk cfg + 2 → run_after_sync (iteration_events cfg q0 k i).
Proof.
  intros Hk. destruct (seg_sync k i Hk) as (pre & wr & -> & Hpre & Hwr & Hnone).
  change (EvProgress k :: pre ++ [EvSync Stream3] ++ wr ++ [EvSync Stream1; EvSync Stream2])
    with ((EvProgress k :: pre) ++ ([EvSync Stream3] ++ wr) ++ [EvSync Stream1; EvSync Stream2]).
  apply run_after_sync_app; [|apply run_after_sync_app].
  - apply run_after_sync_none. constructor; [done|].
    eapply Forall_impl; [exact Hpre|]. by intros e [_ ?].
  - destruct (decide (2 ≤ k)) as [H2|H2].
    + destruct (Hwr H2) as [_ ->]. exact (run_after_sync_pair _ _).
    + rewrite Hnone by lia. apply run_after_sync_none. by repeat constructor.
  - apply run_after_sync_none. by repeat constructor.
Qed.

(** C4.  In every turn of the loop of [recon_all], [stream3] (device to
    host) is synchronised after the copy of the turn has been issued and
    before the write job of chunk [k - 2] is handed to the write thread that
    received the copy; no job is handed over and no stream is synchronised
    earlier in the turn; [stream1] and [stream2] are synchronised after the
    hand-over and end the turn, which the next turn or the joins follow.
    Hence no write job is ever handed over while a device to host copy is
    still in flight. *)
Theorem sync_order tks :
  input_ok cfg q0 = true →
  ∃ s' segs,
    recon_all cfg (init_state cfg q0 tks) = Done tt s'
    ∧ trace s' = concat segs ++ (EvJoin <$> seq 0 (max_write_threads cfg))
    ∧ length segs = nzchunk cfg + 2
    ∧ (∀ k seg, segs !! k = Some seg →
         ∃ pre wr,
           seg = EvProgress k :: pre ++ [EvSync Stream3] ++ wr
                   ++ [EvSync Stream1; EvSync Stream2]
           ∧ Forall (λ e, is_sync e = false ∧ is_run e = false) pre
           ∧ (2 ≤ k → ∃ i, i < max_write_threads cfg
                           ∧ EvCopyOut (k - 2) ((k - 2) mod 2) i ∈ pre
                           ∧ wr = [EvRun i (chunk_job cfg q0 (k - 2))])
           ∧ (k < 2 → wr = []))
    ∧ ∀ tr1 i j tr2, trace s' = tr1 ++ EvRun i j :: tr2 → copies_in_flight tr1 = [].
Proof.
  intros Hin.
  destruct (recon_all_run cfg q0 tks Hin) as (s' & segs & Hrun & Htr & Hlen & Hshape & _).
  exists s', segs. split_and!; [done..| |].
  - intros k seg Hk. destruct (Hshape k seg Hk) as (i & -> & Hi).
    destruct (seg_sync k i) as (pre & wr & Heq & Hpre & Hwr & Hnone).
    { apply lookup_lt_Some in Hk. lia. }
    exists pre, wr. split_and!; [done..| |done].
    intros H2. exists i. destruct (Hwr H2). split_and!; [by apply Hi|done..].
  - intros tr1 i j tr2 Heq.
    assert (run_after_sync (trace s')) as Hras.
    { rewrite Htr. apply run_after_sync_app.
      - apply run_after_sync_concat, Forall_lookup. intros k seg Hk.
        destruct (Hshape k seg Hk) as (i' & -> & _). apply seg_run_after_sync.
        apply lookup_lt_Some in Hk. lia.
      - apply run_after_sync_none, Forall_fmap, Forall_forall. done. }
    destruct (Hras tr1 (EvRun i j) tr2 Heq) as [tr0 ->]; [done|].
    apply in_flight_synced.
Qed.

Lemma seg_dispatched k i :
  k < nzchunk cfg + 2 →
  omap dispatched (iteration_events cfg q0 k i)
  = if bool_decide (2 ≤ k < 2 + nzchunk cfg) then [chunk_job cfg q0 (k - 2)] else [].
Proof.
  intros Hk. rewrite iteration_events_eq.
  repeat case_bool_decide; try (exfalso; lia); done.
Qed.

(** C9.  The write jobs of a run are, in order of arrival, those of the
    chunks [0 .. nzchunk - 1]; the job of the chunk at position [c] gets the
    reconstruction computed for that chunk and the row range that starts at
    [ids[c] * ncz + start_row // 2 ** binning] and has [lzchunk[ids[c]]]
    rows, whatever the order of the ids in the queue. *)
Theorem write_offsets tks :
  input_ok cfg q0 = true →
  ∃ s',
    recon_all cfg (init_state cfg q0 tks) = Done tt s'
    ∧ omap dispatched (trace s') = chunk_job cfg q0 <$> seq 0 (nzchunk cfg)
    ∧ ∀ c, c < nzchunk cfg →
        ∃ id lz,
          ids s' !! c = Some id
          ∧ py_index (lzchunk cfg) id = Some lz
          ∧ let st := (id * Z.of_nat (ncz cfg)
                       + start_row cfg / 2 ^ Z.of_nat (binning cfg))%Z in
            chunk_job cfg q0 c
            = write_data_chunk
                (RecOf (chunk_buf cfg q0 Data c) (chunk_buf cfg q0 Dark c)
                   (chunk_buf cfg q0 Flat c) st (st + lz))
                st (st + lz) id (start_row cfg).
Proof.
  intros Hin.
  destruct (recon_all_run cfg q0 tks Hin)
    as (s' & segs & Hrun & Htr & Hlen & Hshape & _ & Hids & _).
  exists s'. split; [done|]. split.
  - rewrite Htr, omap_app, omap_joins, app_nil_r, omap_concat by done.
    rewrite (segs_pointwise _
      (λ k, if bool_decide (2 ≤ k < 2 + nzchunk cfg) then [chunk_job cfg q0 (k - 2)] else [])).
    + apply window_map. lia.
    + intros k seg Hk. destruct (Hshape k seg Hk) as (i & -> & _).
      apply seg_dispatched. apply lookup_lt_Some in Hk. lia.
  - intros c Hc. destruct (chunk_lookup cfg q0 c Hin Hc) as (Hit & Hlz & _).
    exists (item_id (chunk q0 c)), (chunk_lz cfg q0 c). split_and!; [|done..].
    rewrite Hids. by apply (ids_lookup cfg).
Qed.
End WriteOut.

(** Witness of [sync_order]: the run on three chunks. *)
Lemma sync_order_three :
  input_ok cfg3 queue3 = true
  ∧ ∃ s' segs,
      recon_all cfg3 (init_state cfg3 queue3 []) = Done tt s'
      ∧ trace s' = concat segs ++ (EvJoin <$> seq 0 2)
      ∧ length segs = 5
      ∧ ∀ k seg, segs !! k = Some seg →
          ∃ pre wr,
            seg = EvProgress k :: pre ++ [EvSync Stream3] ++ wr
                    ++ [EvSync Stream1; EvSync Stream2]
            ∧ Forall (λ e, is_sync e = false ∧ is_run e = false) pre
            ∧ (2 ≤ k → ∃ i, i < 2
                            ∧ EvCopyOut (k - 2) ((k - 2) mod 2) i ∈ pre
                            ∧ wr = [EvRun i (chunk_job cfg3 queue3 (k - 2))])
            ∧ (k < 2 → wr = []).
Proof.
  split; [reflexivity|].
  destruct (sync_order cfg3 queue3 [] eq_refl) as (s' & segs & Hrun & Htr & Hlen & H & _).
  exists s', segs. split_and!; [exact Hrun|exact Htr|exact Hlen|exact H].
Defined.

(** Witness of [write_offsets]: with the reader delivering the ids 1, 0 the
    first job writes rows 2..4 and the second rows 0..2. *)
Lemma write_offsets_swapped :
  input_ok cfg_swapped queue_swapped = true
  ∧ ∃ s',
      recon_all cfg_swapped (init_state cfg_swapped queue_swapped []) = Done tt s'
      ∧ omap dispatched (trace s')
        = [write_data_chunk (chunk_rec cfg_swapped queue_swapped 0) 2 4 1 0;
           write_data_chunk (chunk_rec cfg_swapped queue_swapped 1) 0 2 0 0].
Proof.
  split; [reflexivity|].
  destruct (write_offsets cfg_swapped queue_swapped [] eq_refl) as (s' & Hrun & Hjobs & _).
  exists s'. split; [exact Hrun|]. rewrite Hjobs. reflexivity.
Defined.

(** ** Part VIII.  Allocation, termination and the empty run *)

Section Lifecycle.
Variable cfg : config.
Variable q0 : list item.

(** C10.  Whatever state [recon_all] starts from, its allocation leaves
    both generations of the flat buffers, pinned and on the device, filled
    with ones, and those of the data and dark buffers filled with zeros; and
    on a fitting input, after any number [j] of turns, a generation that no
    chunk has been ingested into yet (generation [g] with
    [min j nzchunk <= g]) still holds exactly that: ones for flat, zeros for
    data and dark. *)
Theorem fresh_buffers tks j :
  input_ok cfg q0 = true → j ≤ nzchunk cfg + 2 →
  (∀ s, ∃ s0, allocate cfg s = Done tt s0
              ∧ ∀ g, g < 2 → fresh_gen cfg (mem s0) g)
  ∧ ∃ s',
      (allocate cfg ;; conveyor cfg j) (init_state cfg q0 tks) = Done tt s'
      ∧ ∀ g, g < 2 → Nat.min j (nzchunk cfg) ≤ g →
          let ones := replicate (ncz cfg) (replicate (nflat cfg * ni cfg) 1%Z) in
          b_flat (item_pinned (mem s')) !! g = Some ones
          ∧ b_flat (item_gpu (mem s')) !! g = Some ones
          ∧ b_data (item_pinned (mem s')) !! g
            = Some (replicate (ncz cfg) (replicate (nproj cfg * ni cfg) 0%Z))
          ∧ b_data (item_gpu (mem s')) !! g
            = Some (replicate (ncz cfg) (replicate (nproj cfg * ni cfg) 0%Z))
          ∧ b_dark (item_pinned (mem s')) !! g
            = Some (replicate (ncz cfg) (replicate (ndark cfg * ni cfg) 0%Z))
          ∧ b_dark (item_gpu (mem s')) !! g
            = Some (replicate (ncz cfg) (replicate (ndark cfg * ni cfg) 0%Z)).
Proof.
  intros Hin Hj. split.
  - intros s. eexists. split; [reflexivity|]. intros g Hg a.
    destruct g as [|[|g]]; [| |lia]; by destruct a.
  - destruct (allocate_run cfg q0 tks) as (s0 & Ha & H0).
    destruct (conveyor_run cfg q0 j s0 Hin Hj H0) as (s' & Hc & Hinv).
    exists s'. split.
    { by rewrite (bind_run _ _ _ _ _ Ha). }
    destruct Hinv as [_ _ _ _ _ HP HG _ _].
    intros g Hg Hle ones.
    pose proof (HP Flat) as HPf. pose proof (HP Data) as HPd. pose proof (HP Dark) as HPk.
    pose proof (HG Flat) as HGf. pose proof (HG Data) as HGd. pose proof (HG Dark) as HGk.
    cbn [get_buf] in *. rewrite HPf, HPd, HPk, HGf, HGd, HGk.
    rewrite !bufs_after_fresh by done. done.
Qed.

Lemma elem_of_concat {A} (x : A) (ls : list (list A)) :
  x ∈ concat ls → ∃ l, l ∈ ls ∧ x ∈ l.
Proof.
  induction ls as [|l ls IH]; cbn; [by intros ?%elem_of_nil|].
  intros [H|H]%elem_of_app.
  - exists l. split; [left|done].
  - destruct (IH H) as (l' & ? & ?). exists l'. split; [by right|done].
Qed.

Lemma no_join_in_turn k i t : EvJoin t ∉ iteration_events cfg q0 k i.
Proof.
  rewrite iteration_events_eq, list_elem_of_In. intros H.
  repeat case_bool_decide; cbn in H; intuition discriminate.
Qed.

(** C7.  On a fitting input [recon_all] returns; the last events of its
    trace are the joins of all write threads, one per thread, after every
    event of the loop, in particular after all [nzchunk] write jobs have
    been dispatched; and in the state it returns every write thread is
    idle, so no write job is pending. *)
Theorem joined_on_return tks :
  input_ok cfg q0 = true →
  ∃ s' tr,
    recon_all cfg (init_state cfg q0 tks) = Done tt s'
    ∧ trace s' = tr ++ (EvJoin <$> seq 0 (max_write_threads cfg))
    ∧ (∀ t, EvJoin t ∉ tr)
    ∧ length (omap dispatched tr) = nzchunk cfg
    ∧ length (write_threads s') = max_write_threads cfg
    ∧ Forall (λ t, t = None) (write_threads s').
Proof.
  intros Hin.
  destruct (recon_all_run cfg q0 tks Hin)
    as (s' & segs & Hrun & Htr & Hlen & Hshape & Hw & _).
  exists s', (concat segs). split_and!; [done..| | | |].
  - intros t [seg [Hseg Ht]]%elem_of_concat.
    apply list_elem_of_lookup in Hseg as [k Hk].
    destruct (Hshape k seg Hk) as (i & -> & _). by apply no_join_in_turn in Ht.
  - rewrite omap_concat.
    rewrite (segs_pointwise _
      (λ k, if bool_decide (2 ≤ k < 2 + nzchunk cfg) then [chunk_job cfg q0 (k - 2)] else [])).
    + rewrite window_map, length_fmap, length_seq by lia. done.
    + intros k seg Hk. destruct (Hshape k seg Hk) as (i & -> & _).
      apply seg_dispatched. apply lookup_lt_Some in Hk. lia.
  - rewrite Hw. apply length_replicate.
  - rewrite Hw. by apply Forall_replicate.
Qed.

Lemma idle_turn k q tk w m l ith tr :
  nzchunk cfg = 0 → k < 2 →
  conveyor_body cfg k (State q tk w m l ith tr)
  = Done tt (State q tk w m l ith
               (tr ++ [EvProgress k; EvSync Stream3; EvSync Stream1; EvSync Stream2])).
Proof.
  intros Hz Hk. unfold conveyor_body.
  step ltac:(reflexivity). norm.
  step ltac:(apply stage_compute_skip; lia).
  step ltac:(apply stage_copy_out_skip; lia).
  step ltac:(apply stage_ingest_skip; lia).
  step ltac:(reflexivity). norm.
  step ltac:(apply stage_dispatch_skip; lia).
  step ltac:(reflexivity). norm.
  unfold emit, modify, set_trace. cbn. by rewrite <-!app_assoc.
Qed.

(** C8.  With no chunk at all, whatever the queue holds and however many
    write threads there are, [recon_all] returns after two turns in which
    nothing but the three synchronisations happens: nothing is computed,
    copied or dispatched, the queue is left untouched and the pool is never
    asked for a thread; all write threads are then joined and idle. *)
Theorem empty_run tks :
  nzchunk cfg = 0 →
  ∃ s',
    recon_all cfg (init_state cfg q0 tks) = Done tt s'
    ∧ trace s'
      = [EvProgress 0; EvSync Stream3; EvSync Stream1; EvSync Stream2;
         EvProgress 1; EvSync Stream3; EvSync Stream1; EvSync Stream2]
        ++ (EvJoin <$> seq 0 (max_write_threads cfg))
    ∧ data_queue s' = q0
    ∧ ticks s' = tks
    ∧ write_threads s' = replicate (max_write_threads cfg) None.
Proof.
  intros Hz. eexists. split.
  { unfold recon_all. step ltac:(reflexivity). unfold conveyor.
    rewrite Hz. cbn [plus seq for_each].
    step ltac:(step ltac:(apply idle_turn; [done|lia]);
               step ltac:(apply idle_turn; [done|lia]); reflexivity).
    apply join_all_run. }
  cbn. rewrite ?length_replicate, <-?app_assoc. done.
Qed.
End Lifecycle.

(** Witness of [fresh_buffers]: after the first turn of the run on three
    chunks, generation 1 is still as allocated. *)
Lemma fresh_buffers_three :
  input_ok cfg3 queue3 = true ∧ 1 ≤ nzchunk cfg3 + 2
  ∧ ∃ s',
      (allocate cfg3 ;; conveyor cfg3 1) (init_state cfg3 queue3 []) = Done tt s'
      ∧ b_flat (item_pinned (mem s')) !! 1 = Some [[1]; [1]; [1]; [1]]%Z
      ∧ b_flat (item_gpu (mem s')) !! 1 = Some [[1]; [1]; [1]; [1]]%Z
      ∧ b_data (item_gpu (mem s')) !! 1 = Some [[0]; [0]; [0]; [0]]%Z
      ∧ b_dark (item_gpu (mem s')) !! 1 = Some [[0]; [0]; [0]; [0]]%Z.
Proof.
  split; [reflexivity|]. split; [cbn; lia|].
  destruct (fresh_buffers cfg3 queue3 [] 1 eq_refl ltac:(cbn; lia)) as [_ (s' & Hrun & H)].
  exists s'. split; [exact Hrun|].
  destruct (H 1 ltac:(lia) ltac:(cbn; lia)) as (? & ? & ? & ? & ? & ?). by split_and!.
Defined.

(** Witness of [joined_on_return]: the run on three chunks. *)
Lemma joined_on_return_three :
  input_ok cfg3 queue3 = true
  ∧ ∃ s' tr,
      recon_all cfg3 (init_state cfg3 queue3 []) = Done tt s'
      ∧ trace s' = tr ++ [EvJoin 0; EvJoin 1]
      ∧ length (omap dispatched tr) = 3
      ∧ write_threads s' = [None; None].
Proof.
  split; [reflexivity|].
  destruct (joined_on_return cfg3 queue3 [] eq_refl) as (s' & tr & Hrun & Htr & _ & Hd & Hl & Hw).
  exists s', tr. split_and!; [exact Hrun|exact Htr|exact Hd|].
  destruct (write_threads s') as [|a [|b [|c w]]]; try discriminate Hl.
  apply Forall_cons in Hw as [-> Hw]. apply Forall_cons in Hw as [-> _]. reflexivity.
Defined.

(** Witness of [empty_run]: no chunk, two write threads, a queue that is
    never read. *)
Lemma empty_run_witness :
  nzchunk cfg_empty = 0
  ∧ ∃ s',
      recon_all cfg_empty (init_state cfg_empty queue3 []) = Done tt s'
      ∧ trace s'
        = [EvProgress 0; EvSync Stream3; EvSync Stream1; EvSync Stream2;
           EvProgress 1; EvSync Stream3; EvSync Stream1; EvSync Stream2;
           EvJoin 0; EvJoin 1]
      ∧ data_queue s' = queue3
      ∧ write_threads s' = [None; None].
Proof.
  split; [reflexivity|].
  destruct (empty_run cfg_empty queue3 [] eq_refl) as (s' & Hrun & Htr & Hq & _ & Hw).
  exists s'. split_and!; [exact Hrun|exact Htr|exact Hq|exact Hw].
Defined.

(** ** Part IX.  The shortened chunk *)

Section ShortChunk.
Variable cfg : config.
Variable q0 : list item.

Lemma concat_elem_of {A} (x : A) (l : list A) (ls : list (list A)) :
  l ∈ ls → x ∈ l → x ∈ concat ls.
Proof.
  induction 1 as [l ls|l l' ls _ IH]; cbn; intros Hx; apply elem_of_app; auto.
Qed.

Lemma mod2_add2 c : S (S c) mod 2 = c mod 2.
Proof.
  pose proof (mod2_succ c). pose proof (mod2_succ (S c)).
  pose proof (mod2_lt c). pose proof (mod2_lt (S c)). pose proof (mod2_lt (S (S c))). lia.
Qed.

(** What the buffer of chunk [c] held before the chunk was ingested: the
    buffer of chunk [c - 2], or the initial fill for the first two chunks. *)
Lemma bufs_before a c :
  bufs_after cfg q0 a c !!! (c mod 2)
  = if c <? 2 then fresh_rows cfg a else chunk_buf cfg q0 a (c - 2).
Proof.
  destruct c as [|[|c]].
  - done.
  - done.
  - replace (S (S c) <? 2) with false by (symmetry; apply Nat.ltb_ge; lia).
    replace (S (S c) - 2) with c by lia. unfold chunk_buf.
    rewrite mod2_add2. cbn [bufs_after].
    rewrite (list_lookup_total_insert_ne _ (S c mod 2) (c mod 2)); [done|].
    apply mod2_succ.
Qed.

Lemma chunk_buf_eq a c :
  chunk_buf cfg q0 a c
  = item_rows a (chunk q0 c)
    ++ drop (length (item_rows a (chunk q0 c)))
         (if c <? 2 then fresh_rows cfg a else chunk_buf cfg q0 a (c - 2)).
Proof.
  rewrite <-bufs_before. unfold chunk_buf at 1. cbn [bufs_after].
  apply list_lookup_total_insert_eq. rewrite bufs_after_length. apply mod2_lt.
Qed.

Lemma turn_in_trace (segs : list (list event)) k seg e (joins : list event) :
  segs !! k = Some seg → e ∈ seg → e ∈ concat segs ++ joins.
Proof.
  intros Hk He. apply elem_of_app. left.
  eapply concat_elem_of; [|done]. by eapply list_elem_of_lookup_2.
Qed.

(** C5, as the code has it.  For every chunk [c] of a fitting input, with
    [n] the rows that [[:lzchunk[id]]] selects ([n = lzchunk[id]] when that
    lies within the capacity): ingest writes exactly the [n] rows of the
    item into each pinned buffer of generation [c mod 2] and leaves the
    other rows as they were, so the buffer is the item's rows followed by the
    old rows of the buffer of chunk [c - 2] (or of the initial fill); the
    host to device copy moves all [ncz] rows of the buffer; the
    reconstruction is computed from these whole buffers; and the write job of
    the chunk is given an output range of [lzchunk[id]] rows. *)
Theorem short_chunk_rows tks :
  input_ok cfg q0 = true →
  ∃ s',
    recon_all cfg (init_state cfg q0 tks) = Done tt s'
    ∧ ∀ c, c < nzchunk cfg →
        let n := py_slice_stop (ncz cfg) (chunk_lz cfg q0 c) in
        ((0 ≤ chunk_lz cfg q0 c ≤ Z.of_nat (ncz cfg))%Z → Z.of_nat n = chunk_lz cfg q0 c)
        ∧ (∀ a,
             length (item_rows a (chunk q0 c)) = n
             ∧ EvPinnedWrite a c (c mod 2) n ∈ trace s'
             ∧ EvCopyIn a c (c mod 2) (ncz cfg) ∈ trace s'
             ∧ length (chunk_buf cfg q0 a c) = ncz cfg
             ∧ chunk_buf cfg q0 a c
               = item_rows a (chunk q0 c)
                 ++ drop n (if c <? 2 then fresh_rows cfg a else chunk_buf cfg q0 a (c - 2)))
        ∧ EvCompute c (c mod 2)
            (RecOf (chunk_buf cfg q0 Data c) (chunk_buf cfg q0 Dark c)
               (chunk_buf cfg q0 Flat c)
               (chunk_st cfg (item_id (chunk q0 c)))
               (chunk_st cfg (item_id (chunk q0 c)) + chunk_lz cfg q0 c)) ∈ trace s'
        ∧ ∃ i, EvCopyOut c (c mod 2) i ∈ trace s'
               ∧ EvRun i (write_data_chunk (chunk_rec cfg q0 c)
                            (chunk_st cfg (item_id (chunk q0 c)))
                            (chunk_st cfg (item_id (chunk q0 c)) + chunk_lz cfg q0 c)
                            (item_id (chunk q0 c)) (start_row cfg)) ∈ trace s'.
Proof.
  intros Hin.
  destruct (recon_all_run cfg q0 tks Hin) as (s' & segs & Hrun & Htr & Hlen & Hshape & _).
  exists s'. split; [done|]. intros c Hc n.
  destruct (chunk_lookup cfg q0 c Hin Hc) as (_ & _ & Hrows).
  assert (∀ k, k < nzchunk cfg + 2 →
               ∃ i, segs !! k = Some (iteration_events cfg q0 k i)) as Hseg.
  { intros k Hk. destruct (lookup_lt_is_Some_2 segs k) as [seg Hs]; [lia|].
    destruct (Hshape k seg Hs) as (i & -> & _). eauto. }
  destruct (Hseg c) as [i0 H0]; [lia|].
  destruct (Hseg (S c)) as [i1 H1]; [lia|].
  destruct (Hseg (S (S c))) as [i2 H2]; [lia|].
  rewrite Htr. split_and!.
  - intros Hlz. subst n. unfold py_slice_stop.
    destruct (Z.ltb_spec (chunk_lz cfg q0 c) 0); lia.
  - intros a. split; [apply Hrows|]. split; [|split; [|split]].
    + eapply turn_in_trace; [exact H0|]. rewrite iteration_events_eq.
      rewrite (bool_decide_eq_true_2 (c < nzchunk cfg)) by done.
      apply list_elem_of_further. do 2 (apply elem_of_app; right). apply elem_of_app; left.
      unfold n. rewrite <-(Hrows a). apply list_elem_of_In.
      destruct a; cbn; auto 10.
    + eapply turn_in_trace; [exact H0|]. rewrite iteration_events_eq.
      rewrite (bool_decide_eq_true_2 (c < nzchunk cfg)) by done.
      apply list_elem_of_further. do 2 (apply elem_of_app; right). apply elem_of_app; left.
      apply list_elem_of_In. destruct a; cbn; auto 10.
    + unfold chunk_buf. apply bufs_after_rows; [done|lia|apply mod2_lt].
    + rewrite chunk_buf_eq at 1. by rewrite Hrows.
  - eapply turn_in_trace; [exact H1|]. rewrite iteration_events_eq.
    rewrite (bool_decide_eq_true_2 (1 ≤ S c ≤ nzchunk cfg)) by lia.
    replace (S c - 1) with c by lia.
    apply list_elem_of_further. apply elem_of_app; left. apply list_elem_of_here.
  - exists i2. split.
    + eapply turn_in_trace; [exact H2|]. rewrite iteration_events_eq.
      rewrite !(bool_decide_eq_true_2 (2 ≤ S (S c))) by lia.
      replace (S (S c) - 2) with c by lia.
      apply list_elem_of_further. apply elem_of_app; right. apply elem_of_app; left.
      apply list_elem_of_In; cbn; auto.
    + eapply turn_in_trace; [exact H2|]. rewrite iteration_events_eq.
      rewrite !(bool_decide_eq_true_2 (2 ≤ S (S c))) by lia.
      replace (S (S c) - 2) with c by lia.
      apply list_elem_of_further. do 4 (apply elem_of_app; right). apply elem_of_app; left.
      apply list_elem_of_here.
Qed.
End ShortChunk.

(** Witness of [short_chunk_rows]: the third of three chunks has one valid
    row; one row is written to the pinned buffer, four rows are copied to
    the device, the reconstruction reads the row of the chunk followed by
    three rows of the first chunk, and the write job covers one output
    row. *)
Lemma short_chunk_rows_three :
  input_ok cfg3 queue3 = true
  ∧ ∃ s',
      recon_all cfg3 (init_state cfg3 queue3 []) = Done tt s'
      ∧ EvPinnedWrite Data 2 0 1 ∈ trace s'
      ∧ EvCopyIn Data 2 0 4 ∈ trace s'
      ∧ chunk_buf cfg3 queue3 Data 2 = [[30]; [10]; [10]; [10]]%Z
      ∧ ∃ i, EvRun i (write_data_chunk (chunk_rec cfg3 queue3 2) 8 9 2 0) ∈ trace s'.
Proof.
  split; [reflexivity|].
  destruct (short_chunk_rows cfg3 queue3 [] eq_refl) as (s' & Hrun & H).
  exists s'. split; [exact Hrun|].
  destruct (H 2 ltac:(cbn; lia)) as (_ & Ha & _ & (i & _ & Hi)).
  destruct (Ha Data) as (_ & Hpw & Hci & _ & _).
  split_and!; [exact Hpw|exact Hci|reflexivity|]. exists i. exact Hi.
Defined.

(** C5 as stated fails on the run on three chunks: for the third chunk,
    with one valid row of four, the host to device copy moves all four rows
    of the generation, and the reconstruction reads the three remaining rows,
    which still hold the data of the first chunk. *)
Lemma short_chunk_counterexample :
  ∃ s', recon_all cfg3 (init_state cfg3 queue3 []) = Done tt s'
        ∧ chunk_lz cfg3 queue3 2 = 1%Z
        ∧ ncz cfg3 = 4
        ∧ EvPinnedWrite Data 2 0 1 ∈ trace s'
        ∧ EvCopyIn Data 2 0 4 ∈ trace s'
        ∧ EvCompute 2 0
            (RecOf [[30]; [10]; [10]; [10]] [[130]; [110]; [110]; [110]]
               [[230]; [210]; [210]; [210]] 8 9)%Z ∈ trace s'
        ∧ item_data (chunk queue3 0) = [[10]; [10]; [10]; [10]]%Z.
Proof.
  eexists. split; [vm_compute; reflexivity|].
  split_and!; [reflexivity|reflexivity|in_trace..|reflexivity].
Qed.

(** ** Part X.  The write pool in [recon_try] *)

(** C6, which [recon_try] breaks.  With one slice, one chunk slot of two
    centers and two write threads, [recon_try] looks for a free thread once,
    hands it the job of the first center and, with that job still running
    and the other thread idle, hands the same thread the job of the second
    center: the dispatch hits a busy slot.  ([recon_all] looks for a free thread before each of its
    dispatches and returns on every fitting input, see [recon_all_run].) *)
Theorem try_dispatch_busy :
  let r := RecTry (chunk_item 7 1 10) [5; 6]%Z in
  ∃ s,
    recon_try cfg_try (init_state cfg_try queue_try []) = Raised SlotBusy s
    ∧ trace s
      = [EvReadTry 7;
         EvProgress 0; EvSync Stream3; EvSync Stream1; EvSync Stream2;
         EvProgress 1; EvCompute 0 0 r; EvSync Stream3; EvSync Stream1; EvSync Stream2;
         EvProgress 2; EvFindFree 0; EvCopyOut 0 0 0; EvSync Stream3;
         EvRun 0 (write_data_try r 0 50 7)]
    ∧ write_threads s = [Some (write_data_try r 0 50 7); None].
Proof. intros r. eexists. split; [vm_compute; reflexivity|]. split; reflexivity. Qed.

(** ** Part XI.  More on the layout transforms *)

Section Layout.
Context {A : Type}.
Implicit Types l a b : list A.

Lemma every2_lookup l j : every2 l !! j = l !! (2 * j).
Proof.
  revert l. induction j as [|j IH]; intros [|x [|y l]]; try done.
  replace (2 * S j) with (S (S (2 * j))) by lia. cbn. apply IH.
Qed.

Lemma zip_every2 n l :
  length l = 2 * n →
  concat (zip_with app (chunks 1 n (every2 l)) (chunks 1 n (every2 (drop 1 l)))) = l
  ∧ length (every2 l) = n ∧ length (every2 (drop 1 l)) = n.
Proof.
  revert l. induction n as [|n IH]; intros l Hl.
  - by destruct l.
  - destruct l as [|x [|y l]]; simpl in Hl; try lia.
    destruct (IH l) as (H1 & H2 & H3); [lia|].
    assert (every2 (y :: l) = y :: every2 (drop 1 l)) as Hy.
    { destruct l; [done|]. cbn. by rewrite drop_0. }
    change (every2 (x :: y :: l)) with (x :: every2 l).
    change (drop 1 (x :: y :: l)) with (y :: l). rewrite Hy.
    cbn [chunks take drop zip_with concat app length]. rewrite !drop_0, H1, H2, H3.
    done.
Qed.

(** The input transform on a buffer of two bands of [N] elements each. *)
Lemma interleave_input_eq nz p m (b : list A) :
  length b = 2 * (nz / 2 * (p * m)) →
  interleave_input nz (NdArray [2 * (nz / 2); p; m] b)
  = Some (NdArray [2 * (nz / 2); p; m]
            (concat (zip_with app (chunks 1 (nz / 2 * (p * m)) (take (nz / 2 * (p * m)) b))
                                  (chunks 1 (nz / 2 * (p * m)) (drop (nz / 2 * (p * m)) b))))).
Proof.
  intros Hb. set (h := nz / 2) in *. set (N := h * (p * m)) in *.
  destruct (zip_singletons N (take N b) (drop N b)) as (E1 & E2 & E3).
  { rewrite length_take. lia. }
  { rewrite length_drop. lia. }
  unfold interleave_input, slice0_to, slice0_from. cbn [shape buf mbind option_bind].
  fold h. replace (h `min` (2 * h)) with h by lia.
  replace (2 * h - h) with h by lia.
  unfold concatenate_last, newaxis_last, split_last.
  cbn [shape buf app reverse rev_append mbind option_bind].
  rewrite decide_True by done. cbn [nelems foldr app].
  replace (h * (p * (m * 1))) with N by (unfold N; lia).
  unfold reshape. cbn [shape buf nelems foldr mbind option_bind].
  rewrite decide_True by lia. done.
Qed.

Lemma even_half nz : Nat.Even nz → 2 * (nz / 2) = nz.
Proof.
  intros [h ->]. replace (2 * h) with (h * 2) by lia. rewrite Nat.div_mul by done. lia.
Qed.

(** X1.  The input transform of [backprojection] (lines 71-72) on a
    sinogram stack of shape [(nz, p, m)] with [nz] even keeps the shape
    and the number of elements, and pairs the two bands element by
    element: position [2j] of the result holds element [j] of the lower
    band [data[:nz//2]] and position [2j+1] holds element [j] of the
    upper band [data[nz//2:]]. *)
Theorem interleave_layout (nz p m : nat) (data : ndarray A) :
  Nat.Even nz → shape data = [nz; p; m] → well_shaped data →
  ∃ d', interleave_input nz data = Some d'
        ∧ shape d' = shape data
        ∧ length (buf d') = length (buf data)
        ∧ ∀ j, j < nz / 2 * (p * m) →
            buf d' !! (2 * j) = buf data !! j
            ∧ buf d' !! (2 * j + 1) = buf data !! (nz / 2 * (p * m) + j).
Proof.
  intros He Hs Hw. destruct data as [sh b]. unfold well_shaped in Hw.
  cbn [shape buf] in *. subst sh. pose proof (even_half nz He) as Hnz.
  set (N := nz / 2 * (p * m)).
  assert (length b = 2 * N) as Hb.
  { rewrite Hw. cbn [nelems foldr]. unfold N. rewrite <-Hnz at 1. lia. }
  pose proof (interleave_input_eq nz p m b Hb) as HI. rewrite Hnz in HI.
  destruct (zip_singletons N (take N b) (drop N b)) as (E1 & E2 & E3).
  { rewrite length_take. lia. }
  { rewrite length_drop. lia. }
  fold N in HI.
  set (I := concat (zip_with app (chunks 1 N (take N b)) (chunks 1 N (drop N b)))) in *.
  eexists. split; [exact HI|]. cbn [shape buf]. split; [done|]. split; [lia|].
  intros j Hj. split.
  - rewrite <-every2_lookup, E1. by apply lookup_take_lt.
  - replace (2 * j + 1) with (1 + 2 * j) by lia.
    rewrite <-lookup_drop, <-every2_lookup, E2. by rewrite lookup_drop.
Qed.

(** X2.  The input transform is defined exactly when the stack has twice
    [nz//2] rows, or none: for any other number of rows the two bands
    [data[:nz//2]] and [data[nz//2:]] differ in height and the
    concatenation of line 72 raises.  In particular a stack of [nz] rows
    with [nz] odd is refused. *)
Theorem interleave_defined_iff (nz d p m : nat) (data : ndarray A) :
  shape data = [d; p; m] → well_shaped data →
  is_Some (interleave_input nz data) ↔ d = 2 * (nz / 2) ∨ d = 0.
Proof.
  intros Hs Hw. destruct data as [sh b]. unfold well_shaped in Hw.
  cbn [shape buf] in *. subst sh. split.
  - intros [r Hr]. destruct (decide (d = 2 * (nz / 2) ∨ d = 0)) as [|Hn]; [done|].
    exfalso. revert Hr.
    unfold interleave_input, slice0_to, slice0_from. cbn [shape buf mbind option_bind].
    unfold concatenate_last, newaxis_last, split_last.
    cbn [shape buf app reverse rev_append mbind option_bind].
    set (h := nz / 2) in *. rewrite decide_False; [done|].
    intros Heq. assert (h `min` d = d - h `min` d) by congruence. lia.
  - intros [->| ->].
    + rewrite interleave_input_eq; [done|]. rewrite Hw. cbn [nelems foldr]. lia.
    + destruct b; [|done].
      unfold interleave_input, slice0_to, slice0_from. cbn [shape buf mbind option_bind].
      rewrite Nat.min_0_r. cbn. rewrite decide_True by done. cbn.
      unfold reshape. cbn. done.
Qed.

Lemma deinterleave_output_eq nz n (b : list A) :
  Nat.Even nz → length b = nz * (n * n) →
  deinterleave_output nz n (NdArray [nz; n; n] b)
  = Some (NdArray [nz; n; n] (every2 b ++ every2 (drop 1 b))).
Proof.
  intros [h Hh] Hb. assert (nz = h + h) as -> by lia. clear Hh.
  unfold deinterleave_output, reshape. cbn [shape buf nelems foldr mbind option_bind].
  rewrite half_double. rewrite decide_True by lia.
  cbn [mbind option_bind].
  unfold stride2_last, split_last.
  cbn [shape buf app reverse rev_append mbind option_bind nelems foldr].
  rewrite !(stride_rows _ (h * (n * 1)) n) by lia.
  rewrite drop_0.
  replace ((2 * n + 1 - 0) / 2) with n by (apply Nat.div_unique with 1; lia).
  replace ((2 * n + 1 - 1) / 2) with n by (apply Nat.div_unique with 0; lia).
  unfold concatenate0. cbn [shape buf]. rewrite decide_True by done.
  cbn [mbind option_bind]. unfold assign_all. cbn [shape buf].
  rewrite decide_True by done. done.
Qed.

(** X3.  The two transforms are inverse to each other in the other order
    as well: for every volume of shape [(nz, n, n)] with [nz] even the
    output transform (line 76) succeeds and the input transform (lines
    71-72) applied to its result gives back the volume. *)
Theorem deinterleave_roundtrip (nz n : nat) (obj : ndarray A) :
  Nat.Even nz → shape obj = [nz; n; n] → well_shaped obj →
  ∃ v, deinterleave_output nz n obj = Some v ∧ interleave_input nz v = Some obj.
Proof.
  intros He Hs Hw. destruct obj as [sh b]. unfold well_shaped in Hw.
  cbn [shape buf] in *. subst sh. cbn [nelems foldr] in Hw.
  pose proof (even_half nz He) as Hnz.
  eexists. split; [apply deinterleave_output_eq; [done|lia]|].
  set (N := nz / 2 * (n * n)).
  destruct (zip_every2 N b) as (Z1 & Z2 & Z3).
  { rewrite Hw. unfold N. rewrite <-Hnz at 1. lia. }
  pose proof (interleave_input_eq nz n n (every2 b ++ every2 (drop 1 b))) as HI.
  rewrite Hnz in HI. rewrite HI by (rewrite length_app; fold N; lia).
  fold N. rewrite take_app_length', drop_app_length' by done. by rewrite Z1.
Qed.

(** X4.  [backprojection] as a whole, for a sinogram stack of shape
    [(nz, p, m)] and a volume of shape [(nz, n, n)] with [nz] even and a
    kernel that writes within the memory of [obj]: the kernel is given the
    interleaved stack, and the volume returned has the shape of [obj], its
    lower half holding the elements the kernel left at even positions and
    its upper half those at odd positions. *)
Theorem backprojection_layout (fslv : list A → list A → list A)
    (nz n p m : nat) (obj data : ndarray A) :
  Nat.Even nz →
  shape data = [nz; p; m] → well_shaped data →
  shape obj = [nz; n; n] → well_shaped obj →
  (∀ o d, length (fslv o d) = length o) →
  ∃ din, interleave_input nz data = Some din
         ∧ backprojection fslv nz n obj data
           = Some (NdArray (shape obj)
                     (every2 (fslv (buf obj) (buf din))
                      ++ every2 (drop 1 (fslv (buf obj) (buf din))))).
Proof.
  intros He Hsd Hwd Hso Hwo Hk.
  destruct (interleave_layout nz p m data He Hsd Hwd) as (din & HI & _).
  exists din. split; [done|]. unfold backprojection. rewrite HI.
  cbn [mbind option_bind]. destruct obj as [sh b]. unfold well_shaped in Hwo.
  cbn [shape buf] in *. subst sh. cbn [nelems foldr] in Hwo.
  unfold reshape at 1. cbn [buf nelems foldr].
  rewrite decide_True.
  2:{ rewrite Hwo. pose proof (even_half nz He). set (h := nz / 2) in *. nia. }
  cbn [mbind option_bind]. apply deinterleave_output_eq; [done|].
  rewrite Hk. lia.
Qed.
End Layout.

(** Witness of [interleave_layout]: a stack of two rows of three
    projections. *)
Lemma interleave_layout_sino12 :
  Nat.Even 2 ∧ shape sino12 = [2; 3; 2] ∧ well_shaped sino12
  ∧ ∃ d', interleave_input 2 sino12 = Some d'
          ∧ buf d' = [1; 7; 2; 8; 3; 9; 4; 10; 5; 11; 6; 12]%Z.
Proof.
  assert (Nat.Even 2) as He by (exists 1; reflexivity).
  split_and!; [exact He|reflexivity|reflexivity|].
  destruct (interleave_layout 2 3 2 sino12 He eq_refl eq_refl) as (d' & Hi & _).
  exists d'. split; [exact Hi|].
  vm_compute in Hi. injection Hi as <-. reflexivity.
Defined.

(** Witness of [interleave_defined_iff]: three rows cannot be paired. *)
Lemma interleave_defined_iff_sino3 :
  shape sino3 = [3; 1; 1] ∧ well_shaped sino3 ∧ interleave_input 3 sino3 = None.
Proof.
  split_and!; [reflexivity|reflexivity|].
  destruct (interleave_input 3 sino3) as [r|] eqn:E; [|reflexivity].
  exfalso.
  destruct (proj1 (interleave_defined_iff 3 3 1 1 sino3 eq_refl eq_refl)) as [H|H];
    [by rewrite E|vm_compute in H; lia|lia].
Defined.

(** Witness of [deinterleave_roundtrip]. *)
Lemma deinterleave_roundtrip_volume8 :
  Nat.Even 2 ∧ shape volume8 = [2; 2; 2] ∧ well_shaped volume8
  ∧ ∃ v, deinterleave_output 2 2 volume8 = Some v
         ∧ buf v = [1; 3; 5; 7; 2; 4; 6; 8]%Z
         ∧ interleave_input 2 v = Some volume8.
Proof.
  assert (Nat.Even 2) as He by (exists 1; reflexivity).
  split_and!; [exact He|reflexivity|reflexivity|].
  destruct (deinterleave_roundtrip 2 2 volume8 He eq_refl eq_refl) as (v & Hd & Hi).
  exists v. split_and!; [exact Hd| |exact Hi].
  vm_compute in Hd. injection Hd as <-. reflexivity.
Defined.

(** Witness of [backprojection_layout]: the stand-in kernel copies the
    first eight elements of the interleaved stack into the volume. *)
Lemma backprojection_layout_sino12 :
  backprojection kernel_copy 2 2 volume8 sino12
  = Some (NdArray [2; 2; 2] [1; 2; 3; 4; 7; 8; 9; 10]%Z).
Proof.
  assert (Nat.Even 2) as He by (exists 1; reflexivity).
  destruct (backprojection_layout kernel_copy 2 2 3 2 volume8 sino12 He
              eq_refl eq_refl eq_refl eq_refl) as (din & Hi & Hb).
  { intros o d. unfold kernel_copy. rewrite length_take, length_app. lia. }
  rewrite Hb. vm_compute in Hi. injection Hi as <-. reflexivity.
Defined.

(** ** Part XII.  The streams never race *)

Section Races.
Variable cfg : config.
Variable q0 : list item.

Lemma race_free_from_app fl a b :
  race_free_from fl (a ++ b)
  = race_free_from fl a && race_free_from (foldl in_flight_step fl a) b.
Proof.
  revert fl. induction a as [|e a IH]; intros fl; cbn [app race_free_from foldl]; [done|].
  by rewrite IH, andb_assoc.
Qed.

Lemma gens_prev k : 1 ≤ k → (k - 1) mod 2 = 1 - k mod 2.
Proof.
  intros Hk. pose proof (Nat.div_mod_eq k 2). pose proof (Nat.div_mod_eq (k - 1) 2).
  pose proof (mod2_lt k). pose proof (mod2_lt (k - 1)). lia.
Qed.

Lemma gens_prev2 k : 2 ≤ k → (k - 2) mod 2 = k mod 2.
Proof.
  intros Hk. pose proof (Nat.div_mod_eq k 2). pose proof (Nat.div_mod_eq (k - 2) 2).
  pose proof (mod2_lt k). pose proof (mod2_lt (k - 2)). lia.
Qed.

(** Within one turn no two operations conflict, and the three
    synchronisations that end the turn leave nothing in flight. *)
Lemma turn_race_free k i :
  race_free_from [] (iteration_events cfg q0 k i) = true
  ∧ foldl in_flight_step [] (iteration_events cfg q0 k i) = [].
Proof.
  rewrite iteration_events_eq. unfold ingest_events.
  pose proof (mod2_lt k) as Hg. pose proof (gens_prev k) as H1.
  pose proof (gens_prev2 k) as H2.
  generalize (chunk_rec cfg q0 (k - 1)) (chunk_job cfg q0 (k - 2)) (chunk q0 k).
  intros r j it.
  repeat case_bool_decide; rewrite ?H1, ?H2 by lia;
    destruct (k mod 2) as [|[|?]]; try lia; vm_compute; done.
Qed.

Lemma turns_race_free (segs : list (list event)) :
  (∀ k seg, segs !! k = Some seg → iteration_shape cfg q0 k seg) →
  race_free_from [] (concat segs) = true
  ∧ foldl in_flight_step [] (concat segs) = [].
Proof.
  induction segs as [|seg segs IH] using rev_ind; intros H; [done|].
  destruct IH as [IH1 IH2].
  { intros k s Hk. apply H. by apply lookup_app_l_Some. }
  destruct (H (length segs) seg) as (i & -> & _).
  { by rewrite lookup_app_r, Nat.sub_diag. }
  destruct (turn_race_free (length segs) i) as [T1 T2].
  rewrite concat_app, race_free_from_app, foldl_app, IH1, IH2. cbn [concat].
  rewrite app_nil_r. by rewrite T1, T2.
Qed.

Lemma joins_race_free fl (l : list nat) :
  race_free_from fl (EvJoin <$> l) = true ∧ foldl in_flight_step fl (EvJoin <$> l) = fl.
Proof. induction l as [|t l [IH1 IH2]]; [done|]. cbn. by rewrite IH1, IH2. Qed.

(** X5.  The double buffering of [recon_all] is free of races: on every
    fitting input, no operation is issued on a buffer while an operation
    that is still in flight on another stream (not yet followed by the
    synchronisation of its stream) writes that buffer, or reads it when the
    new operation writes it; this covers the three stream stages, the
    assignments to pinned memory and the hand-over of the landing area to
    the write job.  When [recon_all] returns nothing is in flight. *)
Theorem stream_race_free tks :
  input_ok cfg q0 = true →
  ∃ s', recon_all cfg (init_state cfg q0 tks) = Done tt s'
        ∧ race_free (trace s') = true
        ∧ ops_in_flight (trace s') = [].
Proof.
  intros Hin.
  destruct (recon_all_run cfg q0 tks Hin) as (s' & segs & Hrun & Htr & _ & Hshape & _).
  exists s'. split; [done|]. unfold race_free, ops_in_flight. rewrite Htr.
  destruct (turns_race_free segs Hshape) as [T1 T2].
  destruct (joins_race_free [] (seq 0 (max_write_threads cfg))) as [J1 J2].
  by rewrite race_free_from_app, foldl_app, T1, T2, J1, J2.
Qed.
End Races.

(** Witness of [stream_race_free]: the three-chunk run. *)
Lemma stream_race_free_three :
  input_ok cfg3 queue3 = true
  ∧ ∃ s', recon_all cfg3 (init_state cfg3 queue3 []) = Done tt s'
          ∧ race_free (trace s') = true
          ∧ ops_in_flight (trace s') = [].
Proof. split; [reflexivity|]. apply (stream_race_free cfg3 queue3 []). reflexivity. Defined.

(** The check does see a race: were the reconstruction of a chunk issued
    while the copy of its input to the device is still in flight, or the
    landing area handed over before the copy out is synchronised, the trace
    would be refused. *)
Lemma race_free_refuses :
  race_free [EvCopyIn Data 0 0 4; EvCompute 0 0 RecZeros] = false
  ∧ race_free [EvCopyOut 0 0 1; EvRun 1 (write_data_chunk RecZeros 0 4 0 0)] = false
  ∧ race_free [EvCompute 0 0 RecZeros; EvCopyIn Data 2 0 4] = false.
Proof. by vm_compute. Qed.

(** ** Part XIII.  The way of one chunk through the conveyor *)

Section Pipeline.
Variable cfg : config.
Variable q0 : list item.

Lemma sublist_concat3 {A} (segs : list (list A)) c a b d l0 l1 l2 :
  segs !! c = Some a → segs !! S c = Some b → segs !! S (S c) = Some d →
  l0 `sublist_of` a → l1 `sublist_of` b → l2 `sublist_of` d →
  l0 ++ l1 ++ l2 `sublist_of` concat segs.
Proof.
  revert c. induction segs as [|s segs IH]; intros c Ha Hb Hd H0 H1 H2; [done|].
  destruct c as [|c].
  - destruct segs as [|b' [|d' rest]]; simplify_eq/=.
    apply sublist_app; [done|]. apply sublist_app; [done|].
    by apply sublist_inserts_r.
  - cbn [concat]. apply sublist_inserts_l. by apply (IH c).
Qed.

Ltac sublist_step :=
  first [apply sublist_nil_l | apply sublist_skip | apply sublist_cons].

(** X6.  On every fitting input each chunk goes through the operations of
    the conveyor in the order of its data dependencies, with the
    synchronisation of the stream in between: the chunk at position [c] is
    pulled from the queue, assigned to the pinned buffers of generation
    [c mod 2], copied to the device, [stream1] is synchronised, the
    reconstruction of that generation is issued, [stream2] is synchronised,
    a free write thread is found, the reconstruction is copied to its
    landing area, [stream3] is synchronised and the write job of the chunk
    is started on that thread. *)
Theorem chunk_pipeline tks :
  input_ok cfg q0 = true →
  ∃ s', recon_all cfg (init_state cfg q0 tks) = Done tt s'
        ∧ ∀ c, c < nzchunk cfg →
            ∃ i, i < max_write_threads cfg
                 ∧ [EvQueueGet c (item_id (chunk q0 c));
                    EvPinnedWrite Data c (c mod 2) (length (item_data (chunk q0 c)));
                    EvPinnedWrite Dark c (c mod 2) (length (item_dark (chunk q0 c)));
                    EvPinnedWrite Flat c (c mod 2) (length (item_flat (chunk q0 c)));
                    EvCopyIn Data c (c mod 2) (ncz cfg);
                    EvCopyIn Dark c (c mod 2) (ncz cfg);
                    EvCopyIn Flat c (c mod 2) (ncz cfg);
                    EvSync Stream1;
                    EvCompute c (c mod 2) (chunk_rec cfg q0 c);
                    EvSync Stream2;
                    EvFindFree i;
                    EvCopyOut c (c mod 2) i;
                    EvSync Stream3;
                    EvRun i (chunk_job cfg q0 c)] `sublist_of` trace s'.
Proof.
  intros Hin.
  destruct (recon_all_run cfg q0 tks Hin) as (s' & segs & Hrun & Htr & Hlen & Hshape & _).
  exists s'. split; [done|]. intros c Hc.
  destruct (lookup_lt_is_Some_2 segs c) as [s0 H0]; [lia|].
  destruct (lookup_lt_is_Some_2 segs (S c)) as [s1 H1]; [lia|].
  destruct (lookup_lt_is_Some_2 segs (S (S c))) as [s2 H2]; [lia|].
  destruct (Hshape _ _ H0) as (i0 & E0 & _).
  destruct (Hshape _ _ H1) as (i1 & E1 & _).
  destruct (Hshape _ _ H2) as (i2 & E2 & Hi2).
  exists i2. split; [apply Hi2; lia|]. rewrite Htr. apply sublist_inserts_r.
  apply (sublist_concat3 segs c s0 s1 s2
           [EvQueueGet c (item_id (chunk q0 c));
            EvPinnedWrite Data c (c mod 2) (length (item_data (chunk q0 c)));
            EvPinnedWrite Dark c (c mod 2) (length (item_dark (chunk q0 c)));
            EvPinnedWrite Flat c (c mod 2) (length (item_flat (chunk q0 c)));
            EvCopyIn Data c (c mod 2) (ncz cfg);
            EvCopyIn Dark c (c mod 2) (ncz cfg);
            EvCopyIn Flat c (c mod 2) (ncz cfg);
            EvSync Stream1]
           [EvCompute c (c mod 2) (chunk_rec cfg q0 c); EvSync Stream2]
           [EvFindFree i2; EvCopyOut c (c mod 2) i2; EvSync Stream3;
            EvRun i2 (chunk_job cfg q0 c)]); [done..| | |].
  - subst s0. rewrite iteration_events_eq. unfold ingest_events.
    repeat case_bool_decide; try (exfalso; lia);
      cbn [fmap list_fmap app item_rows]; repeat sublist_step.
  - subst s1. rewrite iteration_events_eq. unfold ingest_events.
    replace (S c - 1) with c by lia.
    repeat case_bool_decide; try (exfalso; lia);
      cbn [fmap list_fmap app item_rows]; repeat sublist_step.
  - subst s2. rewrite iteration_events_eq. unfold ingest_events.
    replace (S (S c) - 2) with c by lia.
    repeat case_bool_decide; try (exfalso; lia);
      cbn [fmap list_fmap app item_rows]; repeat sublist_step.
Qed.
End Pipeline.

(** Witness of [chunk_pipeline]: the three-chunk run. *)
Lemma chunk_pipeline_three :
  input_ok cfg3 queue3 = true
  ∧ ∃ s', recon_all cfg3 (init_state cfg3 queue3 []) = Done tt s'
          ∧ ∀ c, c < 3 →
              ∃ i, i < 2
                   ∧ [EvQueueGet c (item_id (chunk queue3 c));
                      EvPinnedWrite Data c (c mod 2) (length (item_data (chunk queue3 c)));
                      EvPinnedWrite Dark c (c mod 2) (length (item_dark (chunk queue3 c)));
                      EvPinnedWrite Flat c (c mod 2) (length (item_flat (chunk queue3 c)));
                      EvCopyIn Data c (c mod 2) 4;
                      EvCopyIn Dark c (c mod 2) 4;
                      EvCopyIn Flat c (c mod 2) 4;
                      EvSync Stream1;
                      EvCompute c (c mod 2) (chunk_rec cfg3 queue3 c);
                      EvSync Stream2;
                      EvFindFree i;
                      EvCopyOut c (c mod 2) i;
                      EvSync Stream3;
                      EvRun i (chunk_job cfg3 queue3 c)] `sublist_of` trace s'.
Proof. split; [reflexivity|]. apply (chunk_pipeline cfg3 queue3 []). reflexivity. Defined.

(** ** Part XIV.  Output rows and the queue *)

Section Output.
Variable cfg : config.
Variable q0 : list item.

Lemma py_index_elem {A} (l : list A) i x : py_index l i = Some x → x ∈ l.
Proof.
  unfold py_index. repeat case_match; try done; apply list_elem_of_lookup_2.
Qed.

(** The jobs dispatched by a run, in order. *)
Lemma dispatched_jobs tks s' :
  input_ok cfg q0 = true →
  recon_all cfg (init_state cfg q0 tks) = Done tt s' →
  omap dispatched (trace s') = chunk_job cfg q0 <$> seq 0 (nzchunk cfg).
Proof.
  intros Hin Hs.
  destruct (recon_all_run cfg q0 tks Hin) as (s & segs & Hrun & Htr & Hlen & Hshape & _).
  assert (s = s') as -> by congruence.
  rewrite Htr, omap_app, omap_joins, app_nil_r, omap_concat by done.
  rewrite (segs_pointwise _
    (λ k, if bool_decide (2 ≤ k < 2 + nzchunk cfg) then [chunk_job cfg q0 (k - 2)] else [])).
  - apply window_map. lia.
  - intros k seg Hk. destruct (Hshape k seg Hk) as (i & -> & _).
    apply seg_dispatched. apply lookup_lt_Some in Hk. lia.
Qed.

(** X7.  When no chunk has more valid rows than the buffer capacity
    ([lzchunk[id] <= ncz] for every entry), the write jobs of a run never
    overlap in the output: of two jobs dispatched for chunks with different
    ids, the one with the smaller id ends (its [end] row, exclusive) at or
    before the row at which the other starts. *)
Theorem write_ranges_disjoint tks :
  input_ok cfg q0 = true →
  Forall (λ lz, (lz ≤ Z.of_nat (ncz cfg))%Z) (lzchunk cfg) →
  ∃ s', recon_all cfg (init_state cfg q0 tks) = Done tt s'
        ∧ ∀ id1 st1 en1 id2 st2 en2,
            (id1, st1, en1) ∈ omap job_rows (omap dispatched (trace s')) →
            (id2, st2, en2) ∈ omap job_rows (omap dispatched (trace s')) →
            (id1 < id2)%Z → (en1 ≤ st2)%Z.
Proof.
  intros Hin Hcap.
  destruct (recon_all_run cfg q0 tks Hin) as (s' & segs & Hrun & _).
  exists s'. split; [done|]. rewrite (dispatched_jobs tks s' Hin Hrun).
  assert (∀ id st en,
            (id, st, en) ∈ omap job_rows (chunk_job cfg q0 <$> seq 0 (nzchunk cfg)) →
            st = chunk_st cfg id ∧ (en ≤ st + Z.of_nat (ncz cfg))%Z) as Hjob.
  { intros id st en (j & Hj & Hr)%list_elem_of_omap.
    apply list_elem_of_fmap in Hj as (c & -> & [_ Hc]%elem_of_seq).
    cbn in Hr. simplify_eq.
    destruct (chunk_lookup cfg q0 c Hin) as (_ & Hlz & _); [lia|].
    apply py_index_elem in Hlz. rewrite Forall_forall in Hcap.
    specialize (Hcap _ Hlz). split; [done|lia]. }
  intros id1 st1 en1 id2 st2 en2 [-> H1]%Hjob [-> _]%Hjob Hlt.
  unfold chunk_st in *. nia.
Qed.

(** X8.  A run of [recon_all] takes exactly [nzchunk] items from the queue:
    on every fitting input the ids it has recorded when it returns are
    those of the first [nzchunk] items the reader delivered, in arrival
    order, and whatever the reader delivered beyond them is still in the
    queue. *)
Theorem queue_consumed tks :
  input_ok cfg q0 = true →
  ∃ s', recon_all cfg (init_state cfg q0 tks) = Done tt s'
        ∧ ids s' = item_id <$> take (nzchunk cfg) q0
        ∧ data_queue s' = drop (nzchunk cfg) q0
        ∧ length (ids s') = nzchunk cfg.
Proof.
  intros Hin.
  destruct (recon_all_run cfg q0 tks Hin)
    as (s' & segs & Hrun & _ & _ & _ & _ & Hids & Hq).
  exists s'. split_and!; [done..|].
  rewrite Hids, length_fmap, length_take.
  apply input_ok_spec in Hin as (? & _). lia.
Qed.
End Output.

(** Witness of [write_ranges_disjoint]: the chunks delivered in the order
    1, 0 write the rows 2..4 and 0..2. *)
Lemma write_ranges_disjoint_swapped :
  input_ok cfg_swapped queue_swapped = true
  ∧ Forall (λ lz, (lz ≤ Z.of_nat (ncz cfg_swapped))%Z) (lzchunk cfg_swapped)
  ∧ ∃ s', recon_all cfg_swapped (init_state cfg_swapped queue_swapped []) = Done tt s'
          ∧ omap job_rows (omap dispatched (trace s')) = [(1, 2, 4); (0, 0, 2)]%Z.
Proof.
  assert (Forall (λ lz, (lz ≤ Z.of_nat (ncz cfg_swapped))%Z) (lzchunk cfg_swapped)) as Hcap.
  { repeat constructor; cbn; lia. }
  split; [reflexivity|]. split; [exact Hcap|].
  destruct (write_ranges_disjoint cfg_swapped queue_swapped [] eq_refl Hcap) as (s' & Hrun & _).
  exists s'. split; [exact Hrun|].
  vm_compute in Hrun. injection Hrun as <-. reflexivity.
Defined.

(** Witness of [queue_consumed]: a fourth item is left in the queue. *)
Lemma queue_consumed_four :
  input_ok cfg3 (queue3 ++ [chunk_item 0 4 40]) = true
  ∧ ∃ s', recon_all cfg3 (init_state cfg3 (queue3 ++ [chunk_item 0 4 40]) []) = Done tt s'
          ∧ ids s' = [0; 1; 2]%Z
          ∧ data_queue s' = [chunk_item 0 4 40].
Proof.
  split; [reflexivity|].
  destruct (queue_consumed cfg3 (queue3 ++ [chunk_item 0 4 40]) [] eq_refl)
    as (s' & Hrun & Hids & Hq & _).
  exists s'. split_and!; [exact Hrun|exact Hids|exact Hq].
Defined.

(** ** Part XV.  When the reader does not deliver what the conveyor expects *)

Lemma bind_blocked {A B} (m : M A) (f : A → M B) s s' :
  m s = Blocked s' → (m ≫= f) s = Blocked s'.
Proof. intros H. unfold mbind, M_bind. by rewrite H. Qed.

Lemma bind_raised {A B} (m : M A) (f : A → M B) s e s' :
  m s = Raised e s' → (m ≫= f) s = Raised e s'.
Proof. intros H. unfold mbind, M_bind. by rewrite H. Qed.

Lemma for_each_app {A} (l1 l2 : list A) (body : A → M unit) s :
  for_each (l1 ++ l2) body s = (for_each l1 body ;; for_each l2 body) s.
Proof.
  revert s. induction l1 as [|x l1 IH]; intros s; cbn [app for_each]; [done|].
  unfold mbind, M_bind in *. destruct (body x s) as [[] s1| |]; [apply IH|done..].
Qed.

Lemma for_each_ext {A} (l : list A) (f g : A → M unit) :
  (∀ x, x ∈ l → f x = g x) → for_each l f = for_each l g.
Proof.
  induction l as [|x l IH]; intros H; cbn [for_each]; [done|].
  rewrite (H x) by left. rewrite IH; [done|]. intros y Hy. apply H. by right.
Qed.

Section Unfit.
Variable cfg : config.
Variable q0 : list item.

(** The first [m] turns do not depend on how many chunks are still to
    come. *)
Lemma stage_compute_agree m k :
  k ≤ m → m < nzchunk cfg →
  stage_compute cfg k = stage_compute (with_nzchunk m cfg) k.
Proof.
  intros Hk Hm. unfold stage_compute.
  replace (k <? nzchunk (with_nzchunk m cfg) + 1) with (k <? nzchunk cfg + 1); [done|].
  cbn [nzchunk with_nzchunk].
  destruct (Nat.ltb_spec k (nzchunk cfg + 1)), (Nat.ltb_spec k (m + 1)); (done || lia).
Qed.

Lemma stage_ingest_agree m k :
  k < m → m < nzchunk cfg →
  stage_ingest cfg k = stage_ingest (with_nzchunk m cfg) k.
Proof.
  intros Hk Hm. unfold stage_ingest.
  replace (k <? nzchunk (with_nzchunk m cfg)) with (k <? nzchunk cfg); [done|].
  cbn [nzchunk with_nzchunk].
  destruct (Nat.ltb_spec k (nzchunk cfg)), (Nat.ltb_spec k m); (done || lia).
Qed.

Lemma conveyor_body_agree m k :
  k < m → m < nzchunk cfg →
  conveyor_body cfg k = conveyor_body (with_nzchunk m cfg) k.
Proof.
  intros Hk Hm. unfold conveyor_body.
  rewrite (stage_compute_agree m k), (stage_ingest_agree m k) by lia. done.
Qed.

Lemma conveyor_agree m :
  m < nzchunk cfg → conveyor cfg m = conveyor (with_nzchunk m cfg) m.
Proof.
  intros Hm. unfold conveyor. apply for_each_ext.
  intros k [_ Hk]%elem_of_seq. apply conveyor_body_agree; lia.
Qed.

Lemma input_ok_prefix m :
  m ≤ length q0 → forallb (item_ok cfg) (take m q0) = true →
  0 < max_write_threads cfg →
  input_ok (with_nzchunk m cfg) q0 = true.
Proof.
  intros Hm Hall HW. unfold input_ok. cbn [nzchunk with_nzchunk max_write_threads].
  rewrite !andb_true_iff, Nat.leb_le, Nat.ltb_lt. done.
Qed.

(** A run whose turn [m] does not return stops there. *)
Lemma recon_all_stops m tks :
  m < nzchunk cfg → input_ok (with_nzchunk m cfg) q0 = true →
  ∃ s1, inv (with_nzchunk m cfg) q0 m s1
        ∧ (∀ s2, conveyor_body cfg m s1 = Blocked s2 →
                 recon_all cfg (init_state cfg q0 tks) = Blocked s2)
        ∧ (∀ e s2, conveyor_body cfg m s1 = Raised e s2 →
                   recon_all cfg (init_state cfg q0 tks) = Raised e s2).
Proof.
  intros Hm Hin.
  destruct (allocate_run (with_nzchunk m cfg) q0 tks) as (s0 & Ha & H0).
  destruct (conveyor_run (with_nzchunk m cfg) q0 m s0 Hin) as (s1 & Hc & Hinv);
    [cbn; lia|done|].
  rewrite <-conveyor_agree in Hc by done.
  change (allocate cfg (init_state cfg q0 tks) = Done tt s0) in Ha.
  exists s1. split; [done|].
  assert (∀ s, conveyor cfg (nzchunk cfg + 2) s
               = (conveyor cfg m ;; conveyor_body cfg m ;;
                  for_each (seq (S m) (nzchunk cfg + 1 - m)) (conveyor_body cfg)) s) as Hsplit.
  { intros s. unfold conveyor.
    replace (nzchunk cfg + 2) with (m + S (nzchunk cfg + 1 - m)) by lia.
    rewrite seq_app, for_each_app. done. }
  split.
  - intros s2 Hb. unfold recon_all. step ltac:(exact Ha).
    apply bind_blocked. rewrite Hsplit. step ltac:(exact Hc). by apply bind_blocked.
  - intros e s2 Hb. unfold recon_all. step ltac:(exact Ha).
    apply bind_raised. rewrite Hsplit. step ltac:(exact Hc). by apply bind_raised.
Qed.

(** Turn [m] up to its ingest. *)
Lemma turn_head m s1 :
  m < nzchunk cfg → input_ok (with_nzchunk m cfg) q0 = true →
  inv (with_nzchunk m cfg) q0 m s1 →
  ∃ tk w P G rp rg ith tr,
    conveyor_body cfg m s1
    = (stage_ingest cfg m ;; emit (EvSync Stream3) ;; stage_dispatch cfg m ;;
       emit (EvSync Stream1) ;; emit (EvSync Stream2))
        (State (drop m q0) tk w (Memory P G rp rg) (item_id <$> take m q0) ith tr)
    ∧ (∀ a, ∃ dst, get_buf a P !! (m mod 2) = Some dst ∧ length dst = ncz cfg)
    ∧ omap progress tr = seq 0 (S m)
    ∧ fired Ingest tr = seq 0 m
    ∧ ∀ t, EvJoin t ∉ tr.
Proof.
  intros Hm Hin Hinv. destruct s1 as [qs tk w [P G rp rg] l ith tr].
  destruct Hinv as [Hq Hids Hw Hrp Hrg HP HG Hrec (segs & Htr & Hsegs & Hshape)].
  cbn [data_queue ids write_threads mem rec_pinned rec_gpu item_pinned item_gpu trace
       nzchunk with_nzchunk max_write_threads] in *.
  rewrite Nat.min_id in *. subst qs l.
  destruct (compute_step (with_nzchunk m cfg) q0 m (drop m q0) tk w P G rp rg ith
              (tr ++ [EvProgress m]) Hin) as (rg' & Hc & Hrg' & Hrc & Hkeep).
  { cbn. lia. }
  { cbn [nzchunk with_nzchunk]. by rewrite Nat.min_id. }
  { done. }
  cbn [nzchunk with_nzchunk] in Hc, Hrc. rewrite Nat.min_id in Hc.
  rewrite <-(stage_compute_agree m m) in Hc by lia.
  match type of Hc with _ = Done _ (State _ _ _ _ _ _ ?t) => set (tr1 := t) in * end.
  destruct (copy_out_step (with_nzchunk m cfg) m (drop m q0) tk w P G rp rg'
              (item_id <$> take m q0) ith tr1
              (chunk_rec (with_nzchunk m cfg) q0 (m - 2)) Hw Hrp)
    as (tk1 & w1 & rp1 & ith1 & i & Hco & _).
  { by apply input_ok_spec in Hin as (_ & _ & ?). }
  { intros H2. rewrite Hkeep by done. apply Hrec. lia. }
  match type of Hco with _ = Done _ (State _ _ _ _ _ _ ?t) => set (tr2 := t) in * end.
  exists tk1, w1, P, G, rp1, rg', ith1, tr2. split; [|split; [|split; [|split]]].
  - unfold conveyor_body.
    step ltac:(reflexivity). norm.
    step ltac:(exact Hc).
    step ltac:(exact Hco).
    reflexivity.
  - intros a. exists (bufs_after (with_nzchunk m cfg) q0 a m !!! (m mod 2)). split.
    + rewrite HP. apply bufs_after_lookup, mod2_lt.
    + apply (bufs_after_rows (with_nzchunk m cfg)); [done|cbn; lia|apply mod2_lt].
  - subst tr2 tr1. rewrite !omap_app, Htr, omap_concat.
    rewrite (segs_pointwise _ (λ k, [k])).
    2:{ intros k seg Hk. destruct (Hshape k seg Hk) as (j & -> & _).
        apply (seg_schedule (with_nzchunk m cfg)). apply lookup_lt_Some in Hk. cbn. lia. }
    rewrite (concat_singleton_map _ id) by done. rewrite list_fmap_id, Hsegs, seq_S.
    destruct (_ && _), (1 <? m); cbn; by rewrite ?app_nil_r.
  - subst tr2 tr1. unfold fired at 1. rewrite !omap_app. fold (fired Ingest tr).
    rewrite Htr, (fired_segs Ingest 0 m).
    + destruct (_ && _), (1 <? m); cbn; by rewrite ?app_nil_r.
    + lia.
    + intros k seg Hk. destruct (Hshape k seg Hk) as (j & -> & _).
      apply (seg_schedule (with_nzchunk m cfg)). apply lookup_lt_Some in Hk. cbn. lia.
  - intros t. subst tr2 tr1. rewrite Htr, !elem_of_app.
    intros [[[Ht|Ht]|Ht]|Ht].
    + apply elem_of_concat in Ht as (seg & [k Hk]%list_elem_of_lookup & Ht).
      destruct (Hshape k seg Hk) as (j & -> & _). by eapply no_join_in_turn.
    + apply list_elem_of_In in Ht. cbn in Ht. intuition discriminate.
    + destruct (_ && _); apply list_elem_of_In in Ht; cbn in Ht; intuition discriminate.
    + destruct (1 <? m); apply list_elem_of_In in Ht; cbn in Ht; intuition discriminate.
Qed.

Lemma pinned_write_bad_id a k src q tk w m l ith tr id :
  l !! k = Some id → py_index (lzchunk cfg) id = None →
  pinned_write cfg a k src (State q tk w m l ith tr)
  = Raised IndexError (State q tk w m l ith tr).
Proof.
  intros Hid Hlz. unfold pinned_write. run. rewrite Hid. mred. rewrite Hlz. done.
Qed.

Lemma pinned_write_bad_rows a k src q tk w m l ith tr id lz dst :
  l !! k = Some id → py_index (lzchunk cfg) id = Some lz →
  get_buf a (item_pinned m) !! (k mod 2) = Some dst →
  length src ≠ py_slice_stop (length dst) lz → length src ≠ 1 →
  pinned_write cfg a k src (State q tk w m l ith tr)
  = Raised ValueError (State q tk w m l ith tr).
Proof.
  intros Hid Hlz Hdst Hn H1. unfold pinned_write. run.
  rewrite Hid. mred. rewrite Hlz. mred. rewrite Hdst. mred.
  unfold assign_rows. apply Nat.eqb_neq in Hn as ->.
  destruct src as [|r [|r' src]]; done.
Qed.

(** X9.  When the reader delivers fewer than [nzchunk] items, all of them
    fitting, [recon_all] never returns: it ingests every delivered item and
    then blocks in [data_queue.get()] (line 181) in the turn whose number
    is the count of delivered items; the write threads are not joined. *)
Theorem reader_underrun tks :
  length q0 < nzchunk cfg → forallb (item_ok cfg) q0 = true →
  0 < max_write_threads cfg →
  ∃ s, recon_all cfg (init_state cfg q0 tks) = Blocked s
       ∧ ids s = item_id <$> q0
       ∧ omap progress (trace s) = seq 0 (S (length q0))
       ∧ fired Ingest (trace s) = seq 0 (length q0)
       ∧ ∀ t, EvJoin t ∉ trace s.
Proof.
  intros Hm Hall HW.
  assert (input_ok (with_nzchunk (length q0) cfg) q0 = true) as Hin.
  { apply input_ok_prefix; [done| |done]. by rewrite firstn_all. }
  destruct (recon_all_stops (length q0) tks Hm Hin) as (s1 & Hinv & Hb & _).
  destruct (turn_head (length q0) s1 Hm Hin Hinv)
    as (tk & w & P & G & rp & rg & ith & tr & Hbody & _ & Hp & Hf & Hj).
  rewrite drop_all, firstn_all in Hbody.
  eexists. split.
  { apply Hb. rewrite Hbody. apply bind_blocked. unfold stage_ingest.
    apply Nat.ltb_lt in Hm as ->. by apply bind_blocked. }
  cbn [ids trace]. done.
Qed.
(** X10.  An item whose id does not address [lzchunk] stops the run with an
    [IndexError]: if the items before position [m] fit and the item at
    position [m < nzchunk] carries an id outside [-len(lzchunk),
    len(lzchunk))], [recon_all] raises in turn [m], at the first
    [lzchunk[ids[k]]] of line 183, after the item has been taken from the
    queue and its id recorded. *)
Theorem unknown_id_raises tks m it :
  m < nzchunk cfg → q0 !! m = Some it →
  forallb (item_ok cfg) (take m q0) = true →
  0 < max_write_threads cfg →
  py_index (lzchunk cfg) (item_id it) = None →
  ∃ s, recon_all cfg (init_state cfg q0 tks) = Raised IndexError s
       ∧ data_queue s = drop (S m) q0
       ∧ ids s = item_id <$> take (S m) q0
       ∧ omap progress (trace s) = seq 0 (S m)
       ∧ fired Ingest (trace s) = seq 0 (S m).
Proof.
  intros Hm Hit Hall HW Hbad.
  assert (m < length q0) as Hlen by (by eapply lookup_lt_Some).
  assert (input_ok (with_nzchunk m cfg) q0 = true) as Hin.
  { apply input_ok_prefix; [lia|done..]. }
  destruct (recon_all_stops m tks Hm Hin) as (s1 & Hinv & _ & Hr).
  destruct (turn_head m s1 Hm Hin Hinv)
    as (tk & w & P & G & rp & rg & ith & tr & Hbody & _ & Hp & Hf & _).
  rewrite (drop_S _ _ _ Hit) in Hbody.
  eexists. split.
  { apply Hr. rewrite Hbody. apply bind_raised. unfold stage_ingest.
    apply Nat.ltb_lt in Hm as ->.
    step ltac:(reflexivity). norm.
    step ltac:(reflexivity). norm.
    step ltac:(reflexivity). norm.
    apply bind_raised. apply (pinned_write_bad_id _ _ _ _ _ _ _ _ _ _ (item_id it)); [|done].
    rewrite lookup_app_r by (rewrite length_fmap, length_take; lia).
    rewrite length_fmap, length_take. by replace (m - m `min` length q0) with 0 by lia. }
  norm. split; [done|]. split.
  { erewrite take_S_r by done. by rewrite fmap_app. }
  split.
  - by rewrite omap_app, Hp, app_nil_r.
  - unfold fired in *. by rewrite omap_app, Hf, seq_S.
Qed.

(** X11.  An item that brings the wrong number of rows stops the run with
    a [ValueError]: if the items before position [m] fit and the data array
    of the item at position [m < nzchunk] has neither the
    [lzchunk[id]] rows that the slice of line 183 selects nor a single row
    (which would be broadcast), [recon_all] raises in turn [m] at that
    assignment. *)
Theorem wrong_rows_raise tks m it lz :
  m < nzchunk cfg → q0 !! m = Some it →
  forallb (item_ok cfg) (take m q0) = true →
  0 < max_write_threads cfg →
  py_index (lzchunk cfg) (item_id it) = Some lz →
  length (item_data it) ≠ py_slice_stop (ncz cfg) lz →
  length (item_data it) ≠ 1 →
  ∃ s, recon_all cfg (init_state cfg q0 tks) = Raised ValueError s
       ∧ data_queue s = drop (S m) q0
       ∧ omap progress (trace s) = seq 0 (S m)
       ∧ fired Ingest (trace s) = seq 0 (S m).
Proof.
  intros Hm Hit Hall HW Hlz Hrows Hone.
  assert (m < length q0) as Hlen by (by eapply lookup_lt_Some).
  assert (input_ok (with_nzchunk m cfg) q0 = true) as Hin.
  { apply input_ok_prefix; [lia|done..]. }
  destruct (recon_all_stops m tks Hm Hin) as (s1 & Hinv & _ & Hr).
  destruct (turn_head m s1 Hm Hin Hinv)
    as (tk & w & P & G & rp & rg & ith & tr & Hbody & HP & Hp & Hf & _).
  destruct (HP Data) as (dst & Hdst & Hldst).
  rewrite (drop_S _ _ _ Hit) in Hbody.
  eexists. split.
  { apply Hr. rewrite Hbody. apply bind_raised. unfold stage_ingest.
    pose proof Hm as Hm'. apply Nat.ltb_lt in Hm' as ->.
    step ltac:(reflexivity). norm.
    step ltac:(reflexivity). norm.
    step ltac:(reflexivity). norm.
    apply bind_raised.
    apply (pinned_write_bad_rows _ _ _ _ _ _ _ _ _ _ (item_id it) lz dst);
      [|done|done|by rewrite Hldst|done].
    rewrite lookup_app_r by (rewrite length_fmap, length_take; lia).
    rewrite length_fmap, length_take. by replace (m - m `min` length q0) with 0 by lia. }
  norm. split; [done|]. split.
  - by rewrite omap_app, Hp, app_nil_r.
  - unfold fired in *. by rewrite omap_app, Hf, seq_S.
Qed.
End Unfit.

(** Witness of [reader_underrun]: the third chunk never arrives. *)
Lemma reader_underrun_short :
  length queue_short < nzchunk cfg3
  ∧ ∃ s, recon_all cfg3 (init_state cfg3 queue_short []) = Blocked s
         ∧ ids s = [0; 1]%Z
         ∧ omap progress (trace s) = [0; 1; 2]
         ∧ fired Ingest (trace s) = [0; 1].
Proof.
  assert (length queue_short < nzchunk cfg3) as Hm by (cbn; lia).
  assert (0 < max_write_threads cfg3) as HW by (cbn; lia).
  split; [exact Hm|].
  destruct (reader_underrun cfg3 queue_short [] Hm eq_refl HW)
    as (s & Hrun & Hids & Hp & Hf & _).
  exists s. split_and!; [exact Hrun|exact Hids|exact Hp|exact Hf].
Defined.

(** Witness of [unknown_id_raises]: the second item carries the id 5. *)
Lemma unknown_id_raises_five :
  ∃ s, recon_all cfg3 (init_state cfg3 queue_bad_id []) = Raised IndexError s
       ∧ ids s = [0; 5]%Z
       ∧ data_queue s = [chunk_item 2 1 30]
       ∧ omap progress (trace s) = [0; 1].
Proof.
  assert (1 < nzchunk cfg3) as Hm by (cbn; lia).
  assert (0 < max_write_threads cfg3) as HW by (cbn; lia).
  destruct (unknown_id_raises cfg3 queue_bad_id [] 1 (chunk_item 5 4 20)
              Hm eq_refl eq_refl HW eq_refl)
    as (s & Hrun & Hq & Hids & Hp & _).
  exists s. split_and!; [exact Hrun|exact Hids|exact Hq|exact Hp].
Defined.

(** Witness of [wrong_rows_raise]: the second item brings three rows for a
    chunk of four. *)
Lemma wrong_rows_raise_three :
  ∃ s, recon_all cfg3 (init_state cfg3 queue_bad_rows []) = Raised ValueError s
       ∧ data_queue s = [chunk_item 2 1 30]
       ∧ omap progress (trace s) = [0; 1].
Proof.
  assert (1 < nzchunk cfg3) as Hm by (cbn; lia).
  assert (0 < max_write_threads cfg3) as HW by (cbn; lia).
  destruct (wrong_rows_raise cfg3 queue_bad_rows [] 1 (chunk_item 1 3 20) 4
              Hm eq_refl eq_refl HW eq_refl)
    as (s & Hrun & Hq & Hp & _); [cbn; lia|cbn; lia|].
  exists s. split_and!; [exact Hrun|exact Hq|exact Hp].
Defined.

(** ** Part XVI.  The buffers at the end of a run *)

Section Extent.
Variable cfg : config.
Variable q0 : list item.

End Extent.


(** ** Part XVII.  [recon_try] with several centers in a chunk slot *)

(** The state written out after a sequence of updates. *)
Ltac snorm :=
  unfold set_data_queue, set_ticks, set_write_threads, set_mem, set_ids, set_ithread,
    set_trace, set_item_pinned, set_item_gpu, set_rec_pinned, set_rec_gpu;
  cbn [data_queue ticks write_threads mem ids ithread trace
       item_pinned item_gpu rec_pinned rec_gpu].

Section TryCenters.
Variable cfg : config.

Lemma complete_all_idle d n : complete d (replicate n None) = replicate n (None : WRThread).
Proof.
  induction d as [|i d IH]; cbn [complete foldr]; [done|].
  fold (complete d (replicate n (None : WRThread))). rewrite IH.
  apply list_eq. intros j. destruct (decide (i = j)) as [->|Hne].
  - destruct (decide (j < n)).
    + rewrite list_lookup_insert_eq by (by rewrite length_replicate). by rewrite lookup_replicate_2.
    + rewrite !lookup_ge_None_2; [done|rewrite ?length_insert, length_replicate; lia..].
  - by rewrite list_lookup_insert_ne.
Qed.

Lemma complete_keeps d (w : list WRThread) i : i ∉ d → complete d w !! i = w !! i.
Proof.
  intros Hi. induction d as [|i' d IH]; cbn [complete foldr]; [done|].
  fold (complete d w). apply not_elem_of_cons in Hi as [Hne Hi].
  rewrite list_lookup_insert_ne by done. by apply IH.
Qed.

Lemma next_tick_eq q tk w m l ith tr :
  next_tick (State q tk w m l ith tr)
  = Done (default (Tick [] 0) (head tk)) (State q (tail tk) w m l ith tr).
Proof. by destruct tk. Qed.

Lemma WRThread_run_idle i j q tk w m l ith tr :
  complete (finished (default (Tick [] 0) (head tk))) w !! i = Some None →
  WRThread_run i j (State q tk w m l ith tr)
  = Done tt (State q (tail tk)
               (<[i:=Some j]> (complete (finished (default (Tick [] 0) (head tk))) w))
               m l ith (tr ++ [EvRun i j])).
Proof.
  intros Hi. unfold WRThread_run. run. rewrite next_tick_eq. mred. rewrite Hi. done.
Qed.

Lemma WRThread_run_busy i j j0 q tk w m l ith tr :
  complete (finished (default (Tick [] 0) (head tk))) w !! i = Some (Some j0) →
  WRThread_run i j (State q tk w m l ith tr)
  = Raised SlotBusy (State q (tail tk)
                       (complete (finished (default (Tick [] 0) (head tk))) w) m l ith tr).
Proof.
  intros Hi. unfold WRThread_run. run. rewrite next_tick_eq. mred. rewrite Hi. done.
Qed.

Lemma find_free_thread_idle q tk n m l ith tr :
  find_free_thread (State q tk (replicate (S n) None) m l ith tr)
  = Done 0 (State q (tail tk) (replicate (S n) None) m l ith (tr ++ [EvFindFree 0])).
Proof.
  unfold find_free_thread. run. rewrite next_tick_eq. mred.
  rewrite complete_all_idle. done.
Qed.

Lemma try_dispatch_one_idle k id kk q tk w m l i tr r c :
  rec_pinned m !! i = Some r → kk < ncz cfg →
  py_index (save_centers cfg) (Z.of_nat ((k - 2) * ncz cfg + kk)) = Some c →
  complete (finished (default (Tick [] 0) (head tk))) w !! i = Some None →
  try_dispatch_one cfg k id kk (State q tk w m l (Some i) tr)
  = Done tt (State q (tail tk)
               (<[i:=Some (write_data_try r kk c id)]>
                  (complete (finished (default (Tick [] 0) (head tk))) w))
               m l (Some i) (tr ++ [EvRun i (write_data_try r kk c id)])).
Proof.
  intros Hr Hkk Hc Hi. unfold try_dispatch_one. apply Nat.ltb_lt in Hkk as ->.
  run. rewrite Hr. mred. rewrite Hc. mred. by apply WRThread_run_idle.
Qed.

Lemma try_dispatch_one_busy k id kk q tk w m l i tr r c j0 :
  rec_pinned m !! i = Some r → kk < ncz cfg →
  py_index (save_centers cfg) (Z.of_nat ((k - 2) * ncz cfg + kk)) = Some c →
  complete (finished (default (Tick [] 0) (head tk))) w !! i = Some (Some j0) →
  try_dispatch_one cfg k id kk (State q tk w m l (Some i) tr)
  = Raised SlotBusy (State q (tail tk)
                       (complete (finished (default (Tick [] 0) (head tk))) w)
                       m l (Some i) tr).
Proof.
  intros Hr Hkk Hc Hi. unfold try_dispatch_one. apply Nat.ltb_lt in Hkk as ->.
  run. rewrite Hr. mred. rewrite Hc. mred. by eapply WRThread_run_busy.
Qed.

Lemma try_compute_run slice k q tk w P G rp rg l ith tr ls r0 :
  0 < k → k < nschunk cfg + 1 →
  lschunk cfg !! (k - 1) = Some ls → (ls ≤ Z.of_nat (ncz cfg))%Z →
  rg !! ((k - 1) mod 2) = Some r0 →
  ∃ sht,
    try_compute cfg slice k (State q tk w (Memory P G rp rg) l ith tr)
    = Done tt (State q tk w (Memory P G rp (<[(k - 1) mod 2 := RecTry slice sht]> rg)) l ith
                 (tr ++ [EvCompute (k - 1) ((k - 1) mod 2) (RecTry slice sht)])).
Proof.
  intros H0 Hk Hls Hle Hr. unfold try_compute.
  apply Nat.ltb_lt in H0 as ->. apply Nat.ltb_lt in Hk as ->. cbn [andb].
  run. rewrite Hls. mred.
  assert ((Z.of_nat (ncz cfg) - ls <? 0)%Z = false) as -> by (apply Z.ltb_ge; lia).
  run. rewrite Hr. mred. eexists. reflexivity.
Qed.

Lemma try_body_0 slice id q tk w m l ith tr :
  try_body cfg slice id 0 (State q tk w m l ith tr)
  = Done tt (State q tk w m l ith
               (tr ++ [EvProgress 0; EvSync Stream3; EvSync Stream1; EvSync Stream2])).
Proof.
  unfold try_body, try_compute, stage_copy_out, try_dispatch. run.
  unfold modify. norm. by rewrite <-!app_assoc.
Qed.

Lemma try_body_1 slice id q tk w P G rp r0 r1 l ith tr ls0 :
  1 ≤ nschunk cfg → lschunk cfg !! 0 = Some ls0 → (ls0 ≤ Z.of_nat (ncz cfg))%Z →
  ∃ sht,
    try_body cfg slice id 1 (State q tk w (Memory P G rp [r0; r1]) l ith tr)
    = Done tt (State q tk w (Memory P G rp [RecTry slice sht; r1]) l ith
                 (tr ++ [EvProgress 1; EvCompute 0 0 (RecTry slice sht);
                         EvSync Stream3; EvSync Stream1; EvSync Stream2])).
Proof.
  intros Hn Hl0 Hle.
  destruct (try_compute_run slice 1 q tk w P G rp [r0; r1] l ith (tr ++ [EvProgress 1])
              ls0 r0) as (sht & Hc); [lia|lia|done|done|done|].
  exists sht. unfold try_body.
  step ltac:(reflexivity). norm.
  step ltac:(exact Hc).
  unfold stage_copy_out, try_dispatch. run. unfold modify. norm. by rewrite <-!app_assoc.
Qed.

(** The reconstruction of turn 2: that of the second chunk slot if there
    is one, into generation 1. *)
Lemma try_compute_2 slice q tk w P G rp r0 r1 l ith tr :
  (2 ≤ nschunk cfg → ∃ ls1, lschunk cfg !! 1 = Some ls1 ∧ (ls1 ≤ Z.of_nat (ncz cfg))%Z) →
  ∃ r1' c2,
    try_compute cfg slice 2 (State q tk w (Memory P G rp [r0; r1]) l ith tr)
    = Done tt (State q tk w (Memory P G rp [r0; r1']) l ith (tr ++ c2))
    ∧ (c2 = [] ∨ ∃ r, c2 = [EvCompute 1 1 r]).
Proof.
  intros Hl1. destruct (decide (2 ≤ nschunk cfg)) as [H2|H2].
  - destruct (Hl1 H2) as (ls1 & Hls1 & Hle).
    destruct (try_compute_run slice 2 q tk w P G rp [r0; r1] l ith tr ls1 r1)
      as (sht & Hc); [lia|lia|done|done|done|].
    eexists _, _. split; [exact Hc|]. right. by eexists.
  - exists r1, []. split; [|by left]. unfold try_compute.
    assert ((2 <? nschunk cfg + 1) = false) as -> by (apply Nat.ltb_ge; lia).
    by rewrite app_nil_r.
Qed.

(** X13.  [recon_try] hands the jobs of all centers of a chunk slot to one
    write thread without waiting for it: whenever the first chunk slot
    holds two or more centers (its shifts fit the buffer, and there is a
    slice, a write thread and the centers to save), the run looks for a
    free thread once in turn 2 (line 252), starts the job of the first
    center on it (line 258) and, unless that job has finished in the
    meantime, starts the job of the second center on the same thread while
    it is busy. *)
Theorem try_second_center_busy (it : item) (q : list item) (tks : list tick)
    (id : Z) (rest : list Z) (ls0 c0 c1 : Z) :
  id_slices cfg = id :: rest →
  0 < max_write_threads cfg →
  1 ≤ nschunk cfg →
  lschunk cfg !! 0 = Some ls0 → (2 ≤ ls0 ≤ Z.of_nat (ncz cfg))%Z →
  (2 ≤ nschunk cfg → ∃ ls1, lschunk cfg !! 1 = Some ls1 ∧ (ls1 ≤ Z.of_nat (ncz cfg))%Z) →
  py_index (save_centers cfg) 0 = Some c0 →
  py_index (save_centers cfg) 1 = Some c1 →
  (∀ tk, tks !! 2 = Some tk → 0 ∉ finished tk) →
  ∃ s r c2,
    recon_try cfg (init_state cfg (it :: q) tks) = Raised SlotBusy s
    ∧ write_threads s !! 0 = Some (Some (write_data_try r 0 c0 id))
    ∧ trace s
      = [EvReadTry id;
         EvProgress 0; EvSync Stream3; EvSync Stream1; EvSync Stream2;
         EvProgress 1; EvCompute 0 0 r; EvSync Stream3; EvSync Stream1; EvSync Stream2;
         EvProgress 2]
        ++ c2
        ++ [EvFindFree 0; EvCopyOut 0 0 0; EvSync Stream3; EvRun 0 (write_data_try r 0 c0 id)]
    ∧ (c2 = [] ∨ ∃ r', c2 = [EvCompute 1 1 r']).
Proof.
  intros Hid HW Hn Hl0 Hls Hl1 Hc0 Hc1 Htk.
  destruct (max_write_threads cfg) as [|W] eqn:EW; [lia|].
  set (P := Bufs [] [] []).
  destruct (try_body_1 it id q tks (replicate (S W) None) P P (replicate (S W) RecZeros)
              RecZeros RecZeros [] None
              ([EvReadTry id] ++ [EvProgress 0; EvSync Stream3; EvSync Stream1; EvSync Stream2])
              ls0 Hn Hl0) as (sht & Hb1); [lia|].
  match type of Hb1 with _ = Done _ (State _ _ _ _ _ _ ?t) => set (tr1 := t) in * end.
  destruct (try_compute_2 it q tks (replicate (S W) None) P P (replicate (S W) RecZeros)
              (RecTry it sht) RecZeros [] None (tr1 ++ [EvProgress 2]) Hl1)
    as (r1' & c2 & Hc2 & Hc2form).
  set (r := RecTry it sht) in *.
  set (job0 := write_data_try r 0 c0 id).
  set (t2 := default (Tick [] 0) (head (tail (tail tks)))).
  assert (0 ∉ finished t2) as Ht2.
  { subst t2. destruct tks as [|ta [|tb [|tc tks']]]; cbn; try apply not_elem_of_nil.
    by apply Htk. }
  assert (0 < ncz cfg ∧ 1 < ncz cfg) as [Hz0 Hz1] by lia.
  destruct (Z.to_nat ls0) as [|[|nl]] eqn:Els; [lia|lia|].
  eexists _, r, c2. split.
  { unfold recon_try. rewrite Hid. cbn [for_each]. apply bind_raised.
    unfold try_slice, init_state. rewrite EW.
    step ltac:(reflexivity). snorm.
    step ltac:(reflexivity). snorm.
    step ltac:(reflexivity). snorm. unfold fresh_rec. rewrite EW. cbn [item_pinned item_gpu].
    apply bind_raised.
    replace (nschunk cfg + 2) with (S (S (S (nschunk cfg - 1)))) by lia.
    cbn [seq for_each].
    step ltac:(apply try_body_0).
    step ltac:(exact Hb1).
    apply bind_raised. unfold try_body.
    step ltac:(reflexivity). snorm.
    step ltac:(exact Hc2).
    step ltac:(unfold stage_copy_out; cbn [Nat.ltb Nat.leb];
               step ltac:(apply find_free_thread_idle); reflexivity).
    snorm. change ((2 - 2) mod 2) with 0. change (2 - 2) with 0.
    change (<[0:=r]> (replicate (S W) RecZeros)) with (r :: replicate W RecZeros).
    step ltac:(reflexivity). snorm.
    apply bind_raised. unfold try_dispatch. cbn [Nat.ltb Nat.leb].
    change (2 - 2) with 0. rewrite Hl0.
    step ltac:(reflexivity). rewrite Els. cbn [seq for_each].
    step ltac:(apply (try_dispatch_one_idle 2 id 0 _ _ _ _ _ 0 _ r c0);
               [reflexivity|lia|exact Hc0|by rewrite complete_all_idle]).
    rewrite complete_all_idle. fold job0.
    change (<[0:=Some job0]> (replicate (S W) None)) with (Some job0 :: replicate W None).
    apply bind_raised.
    apply (try_dispatch_one_busy 2 id 1 _ _ _ _ _ 0 _ r c1 job0);
      [reflexivity|lia|exact Hc1|].
    rewrite complete_keeps by done. reflexivity. }
  snorm. split; [|split; [|done]].
  - rewrite complete_keeps by done. reflexivity.
  - subst tr1. rewrite <-!app_assoc. reflexivity.
Qed.
End TryCenters.

(** Witness of [try_second_center_busy]: one chunk slot of two centers. *)
Lemma try_second_center_busy_two :
  ∃ s, recon_try cfg_try (init_state cfg_try queue_try []) = Raised SlotBusy s
       ∧ write_threads s !! 0
         = Some (Some (write_data_try (RecTry (chunk_item 7 1 10) [5; 6]%Z) 0 50 7)).
Proof.
  assert (0 < max_write_threads cfg_try) as HW by (cbn; lia).
  assert (1 ≤ nschunk cfg_try) as Hn by (cbn; lia).
  destruct (try_second_center_busy cfg_try (chunk_item 7 1 10) [] [] 7 [] 2 50 51
              eq_refl HW Hn eq_refl)
    as (s & r & c2 & Hrun & Hw & Htr & _);
    [cbn; lia|cbn; lia|reflexivity|reflexivity|intros tk Hk; discriminate Hk|].
  exists s. split; [exact Hrun|].
  vm_compute in Hrun. injection Hrun as <-. reflexivity.
Defined.

(** ** Part XVIII.  The full chunk *)

Section FullChunk.
Variable cfg : config.
Variable q0 : list item.

(** X14.  A chunk that fills the buffer is reconstructed from its own rows
    only: on every fitting input, if the chunk at position [c] has
    [lzchunk[id] = ncz], the three buffers that the reconstruction of that
    chunk reads (lines 160-162) are exactly the data, dark and flat rows of
    its queue item, whatever the generation held before. *)
Theorem full_chunk_own_rows tks c :
  input_ok cfg q0 = true → c < nzchunk cfg →
  chunk_lz cfg q0 c = Z.of_nat (ncz cfg) →
  ∃ s', recon_all cfg (init_state cfg q0 tks) = Done tt s'
        ∧ (∀ a, chunk_buf cfg q0 a c = item_rows a (chunk q0 c))
        ∧ EvCompute c (c mod 2)
            (RecOf (item_data (chunk q0 c)) (item_dark (chunk q0 c)) (item_flat (chunk q0 c))
               (chunk_st cfg (item_id (chunk q0 c)))
               (chunk_st cfg (item_id (chunk q0 c)) + Z.of_nat (ncz cfg))) ∈ trace s'.
Proof.
  intros Hin Hc Hfull.
  destruct (recon_all_run cfg q0 tks Hin) as (s' & segs & Hrun & Htr & Hlen & Hshape & _).
  exists s'. split; [done|].
  destruct (chunk_lookup cfg q0 c Hin Hc) as (_ & _ & Hrows).
  assert (∀ a, chunk_buf cfg q0 a c = item_rows a (chunk q0 c)) as Hbuf.
  { intros a. rewrite chunk_buf_eq. rewrite drop_ge; [by rewrite app_nil_r|].
    rewrite Hrows, Hfull. unfold py_slice_stop.
    assert ((Z.of_nat (ncz cfg) <? 0)%Z = false) as -> by (apply Z.ltb_ge; lia).
    rewrite Nat2Z.id, Nat.min_id.
    destruct (c <? 2) eqn:E.
    - unfold fresh_rows. by rewrite length_replicate.
    - apply Nat.ltb_ge in E. unfold chunk_buf.
      rewrite bufs_after_rows; [done|done|lia|apply mod2_lt]. }
  split; [done|].
  destruct (lookup_lt_is_Some_2 segs (S c)) as [seg Hs]; [lia|].
  destruct (Hshape _ _ Hs) as (i & -> & _).
  rewrite Htr. eapply turn_in_trace; [exact Hs|]. rewrite iteration_events_eq.
  rewrite (bool_decide_eq_true_2 (1 ≤ S c ≤ nzchunk cfg)) by lia.
  replace (S c - 1) with c by lia.
  apply list_elem_of_further. apply elem_of_app; left.
  unfold chunk_rec. rewrite !Hbuf, Hfull. apply list_elem_of_here.
Qed.
End FullChunk.

(** Witness of [full_chunk_own_rows]: the second of the three chunks brings
    four rows for a buffer of four. *)
Lemma full_chunk_own_rows_three :
  input_ok cfg3 queue3 = true ∧ 1 < nzchunk cfg3
  ∧ chunk_lz cfg3 queue3 1 = Z.of_nat (ncz cfg3)
  ∧ ∃ s', recon_all cfg3 (init_state cfg3 queue3 []) = Done tt s'
          ∧ EvCompute 1 1
              (RecOf (replicate 4 [20]) (replicate 4 [120]) (replicate 4 [220]) 4 8)%Z
            ∈ trace s'.
Proof.
  assert (1 < nzchunk cfg3) as Hc by (cbn; lia).
  split; [reflexivity|]. split; [exact Hc|]. split; [reflexivity|].
  destruct (full_chunk_own_rows cfg3 queue3 [] 1 eq_refl Hc eq_refl) as (s' & Hrun & _ & He).
  exists s'. split; [exact Hrun|exact He].
Defined.
